(** * AkiEstimate, InitialPhase/optimizer/optimizelove.cpp: the [invert] driver

    A shallow embedding of the optimisation loop of [invert]
    (optimizelove.cpp, lines 400-603) and the properties of its control
    flow: step-size adaptation, backtracking, termination and frame
    conditions.

    The forward solver ([likelihood_love]), the step strategies
    ([SimpleStep], [QuasiNewton]), the static helpers of
    [LeastSquaresIterator] and the constant [EPSILON_MIN] are declared in
    the headers that optimizelove.cpp includes (likelihood.hpp, simple.hpp,
    quasinewton.hpp); here they are the fields of the interface [Externals]
    and every theorem holds for all of their implementations.  [double] is
    IEEE binary64, Rocq's primitive [float]; the state of [invert] is a
    record, a transition of the driver is a basic block of its two nested
    do-while loops, and a run is the sequence of these transitions from the
    initial state. *)

From Stdlib Require Import ZArith Zquot List Bool Lia String.
From Stdlib Require Import Floats.
Import ListNotations.

Local Open Scope Z_scope.

(** ** Machine numbers *)

(** C++ [double]. *)
Definition double : Type := float.
Bind Scope float_scope with double.

(** [a > b] on doubles: false as soon as one side is NaN. *)
Definition dbl_gt (a b : double) : bool := PrimFloat.ltb b a.

(** [a < b] on doubles. *)
Definition dbl_lt (a b : double) : bool := PrimFloat.ltb a b.

(** [a <= b] on doubles. *)
Definition dbl_le (a b : double) : bool := PrimFloat.leb a b.

(** [x *= 0.5]. *)
Definition halve (x : double) : double := PrimFloat.mul x 0.5%float.

(** [k] successive halvings. *)
Fixpoint halve_n (k : nat) (x : double) : double :=
  match k with
  | O => x
  | S k' => halve (halve_n k' x)
  end.

(** C++ [int]: 32 bits, two's complement. *)
Definition INT_MAX : Z := 2147483647.

Definition int_wrap (z : Z) : Z := (z + 2147483648) mod 4294967296 - 2147483648.

(** [i ++] *)
Definition int_incr (i : Z) : Z := int_wrap (i + 1).

(** [a % b]: the remainder of the division that truncates toward zero. *)
Definition int_rem (a b : Z) : Z := Z.rem a b.

(** ** Doubles through their specification

    The binary64 operations are specified in the standard library by
    [spec_float]; the facts about [halve] are proved there. *)

(** 0.5 as a specified float: 2^52 * 2^-53. *)
Definition SFhalf : spec_float := S754_finite false 4503599627370496 (-53).

Definition SFhalve (x : spec_float) : spec_float := SF64mul x SFhalf.

(** Zero, a positive finite number or plus infinity. *)
Definition sf_nonneg (x : spec_float) : bool :=
  match x with
  | S754_zero _ | S754_infinity false | S754_finite false _ _ => true
  | _ => false
  end.

(** Not a negative number: [sf_nonneg] or NaN. *)
Definition sf_not_neg (x : spec_float) : bool :=
  match x with
  | S754_nan => true
  | _ => sf_nonneg x
  end.

Definition sf_zero (x : spec_float) : bool :=
  match x with S754_zero _ => true | _ => false end.

Definition sf_finite (x : spec_float) : bool :=
  match x with S754_zero _ | S754_finite _ _ _ => true | _ => false end.

(** The size of a finite number: what halving makes smaller. *)
Definition sf_size (x : spec_float) : nat :=
  match x with
  | S754_finite _ m e => Z.to_nat (e + 1074) + Pos.to_nat m
  | _ => O
  end.

(** ** The collaborators of the driver *)

(** The types declared in the missing headers. *)
Class Types := {
  DispersionData : Type;
  model_t : Type;
  mesh_t : Type;
  lovesolver_t : Type;
  (** [Spec1DMatrix<double>] *)
  dmatrix : Type;
  (** [Spec1DMatrix<int>] *)
  imatrix : Type
}.

Section Interface.
Context {T : Types}.

(** The objects that [invert] hands to [likelihood_love] by non-const
    reference, model and reference model apart: the data (which receives
    the predictions), the mesh, the solver and the scratch matrices. *)
Record workspace := {
  data : DispersionData;
  mesh : mesh_t;
  love : lovesolver_t;
  dkdp : dmatrix;
  dUdp : dmatrix;
  dLdp : dmatrix;
  G : dmatrix;
  residuals : dmatrix;
  Cd : dmatrix
}.

(** The abstract class [LeastSquaresIterator]: one virtual method.
    [ComputeStep epsilon Cd Cm residuals G dLdp model_mask model_v model_0
    model_v_proposed] returns its boolean and the new contents of
    [model_v_proposed]. *)
Record LeastSquaresIterator := {
  ComputeStep :
    double -> dmatrix -> dmatrix -> dmatrix -> dmatrix -> dmatrix ->
    imatrix -> dmatrix -> dmatrix -> dmatrix -> bool * dmatrix
}.

(** Modelled from the spec: the declarations of [likelihood_love]
    (likelihood.hpp), of [LeastSquaresIterator] and its two subclasses
    (simple.hpp, quasinewton.hpp), of [Spec1DMatrix] and of [EPSILON_MIN]
    are missing.  Their signatures follow the call sites of [invert] and
    sections 4.1 to 4.5 of the specification: the likelihood reads the
    model and writes the data and the solver outputs; [ComputeStep] and
    [validate] read their arguments and write the proposed vector only;
    the two [copy] overloads write their destination only. *)
Class Externals := {
  EPSILON_MIN : double;
  (** a default-constructed [Spec1DMatrix] *)
  dmatrix_new : dmatrix;
  imatrix_new : imatrix;
  (** [G.cols()] *)
  cols : dmatrix -> N;
  (** [M.resize(rows, cols)] *)
  dresize : N -> N -> dmatrix -> dmatrix;
  iresize : N -> N -> imatrix -> imatrix;
  (** [likelihood_love ws model reference damping posterior threshold
      order highorder boundaryorder scale frequency_thin] *)
  likelihood_love :
    workspace -> model_t -> model_t -> list double -> bool ->
    double -> double -> double -> double -> double -> double ->
    double * workspace;
  (** [data.save_predictions(filename)] *)
  save_predictions : DispersionData -> string -> bool;
  (** [LeastSquaresIterator::initialize_Cm(model, damping, Cm)] *)
  initialize_Cm : model_t -> list double -> dmatrix -> dmatrix;
  (** [LeastSquaresIterator::copy(model, v, mask)] *)
  copy_model : model_t -> dmatrix -> imatrix -> dmatrix * imatrix;
  (** [LeastSquaresIterator::copy(v, model)] *)
  copy_vector : dmatrix -> model_t -> model_t;
  (** [LeastSquaresIterator::validate(v, mask, prior_min, prior_max)] *)
  validate : dmatrix -> imatrix -> list double -> list double -> bool;
  (** [new SimpleStep()] and [new QuasiNewton()] *)
  SimpleStep : LeastSquaresIterator;
  QuasiNewton : LeastSquaresIterator
}.
End Interface.

Arguments workspace : clear implicits.
Arguments workspace {T}.
Arguments LeastSquaresIterator {T}.
Arguments Externals {T}.

(** ** What a run prints and which calls it makes *)

Inductive event :=
  (** a call of [likelihood_love], with the configuration it received *)
  | call_likelihood_love
      (damping : list double) (posterior : bool)
      (threshold order highorder boundaryorder scale frequency_thin : double)
  (** a call of [step[m]->ComputeStep] with step size [epsilon] *)
  | call_ComputeStep (m : Z) (epsilon : double)
  (** [printf("init: %16.9e\n", like)] *)
  | printf_init (like : double)
  (** [fprintf(stderr, "error: failed to save initial predictions\n")] *)
  | fprintf_save_failed
  (** [printf("%4d: Exiting\n", iterations)] *)
  | printf_Exiting (iterations : Z)
  (** [printf("%4d: Backtracking\n", iterations)] *)
  | printf_Backtracking (iterations : Z)
  (** [printf("%4d: %16.9e %16.9e\n", iterations, like, epsilon[m])] *)
  | printf_progress (iterations : Z) (like epsilon : double).

(** ** The state of [invert] *)

(** Where control is: at the top of the inner do-while (line 508), after it
    (line 531), or past [return true] (line 602). *)
Inductive pc_t := InnerLoop | AfterInner | Returned.

Section Driver.
Context {T : Types} {X : Externals}.

(** The parameters of [invert], the reference parameters with the value
    they have on entry. *)
Record args := {
  a_data : DispersionData;
  a_model : model_t;
  reference : model_t;
  damping : list double;
  posterior : bool;
  a_mesh : mesh_t;
  a_love : lovesolver_t;
  threshold : double;
  order : double;
  highorder : double;
  boundaryorder : double;
  scale : double;
  _epsilon : double;
  maxiterations : Z;
  mode : Z
}.

Record state := {
  ws : workspace;
  model : model_t;
  model_mask : imatrix;
  model_v : dmatrix;
  model_v_proposed : dmatrix;
  model_0 : dmatrix;
  Cm : dmatrix;
  epsilon : double * double;
  like : double;
  last_like : double;
  iterations : Z;
  m : Z;
  valid : bool;
  pc : pc_t;
  (** the events so far, the latest first *)
  out : list event
}.

Definition PRIOR_MIN : list double := [0.1e3; 0.5e3; 0.5; 1.0]%float.
Definition PRIOR_MAX : list double := [8.0e3; 10.0e3; 1.5; 2.5]%float.

(** [double frequency_thin = 0.001;]: the binary64 nearest to 0.001. *)
#[warnings="-inexact-float"]
Definition frequency_thin : double := 0.001%float.

(** [epsilon[m]] and [step[m]], for the two indices the loop produces. *)
Definition eps_get (i : Z) (e : double * double) : double :=
  if i =? 0 then fst e else snd e.

Definition eps_set (i : Z) (v : double) (e : double * double) : double * double :=
  if i =? 0 then (v, snd e) else (fst e, v).

Definition step (i : Z) : LeastSquaresIterator :=
  if i =? 0 then SimpleStep else QuasiNewton.

(** Lines 416-495 and the entry of the outer loop (lines 502-503). *)
Definition invert_init (a : args) : state :=
  let ws0 :=
    {| data := a_data a; mesh := a_mesh a; love := a_love a;
       dkdp := dmatrix_new; dUdp := dmatrix_new; dLdp := dmatrix_new;
       G := dmatrix_new; residuals := dmatrix_new; Cd := dmatrix_new |} in
  let '(like0, ws1) :=
    likelihood_love ws0 (a_model a) (reference a) (damping a) (posterior a)
      (threshold a) (order a) (highorder a) (boundaryorder a) (scale a)
      frequency_thin in
  let out1 :=
    [printf_init like0;
     call_likelihood_love (damping a) (posterior a) (threshold a) (order a)
       (highorder a) (boundaryorder a) (scale a) frequency_thin] in
  let out2 :=
    if save_predictions (data ws1) "initial_predictions.txt"
    then out1 else fprintf_save_failed :: out1 in
  let nparam := cols (G ws1) in
  let Cm0 := initialize_Cm (a_model a) (damping a) (dresize nparam 1 dmatrix_new) in
  let '(m0, mask0) :=
    copy_model (reference a) (dresize nparam 1 dmatrix_new)
      (iresize nparam 1 imatrix_new) in
  {| ws := ws1;
     model := a_model a;
     model_mask := mask0;
     model_v := dresize nparam 1 dmatrix_new;
     model_v_proposed := dresize nparam 1 dmatrix_new;
     model_0 := m0;
     Cm := Cm0;
     epsilon := (_epsilon a, _epsilon a);
     like := like0;
     last_like := like0;
     iterations := 0;
     m := int_rem 0 2;
     valid := false;
     pc := InnerLoop;
     out := out2 |}.

(** One turn of the inner do-while, lines 509-529. *)
Definition attempt (s : state) : state :=
  let '(v, mask) := copy_model (model s) (model_v s) (model_mask s) in
  let eps := eps_get (m s) (epsilon s) in
  let '(_, proposed) :=
    ComputeStep (step (m s)) eps (Cd (ws s)) (Cm s) (residuals (ws s))
      (G (ws s)) (dLdp (ws s)) mask v (model_0 s) (model_v_proposed s) in
  let ok := validate proposed mask PRIOR_MIN PRIOR_MAX in
  {| ws := ws s;
     model := model s;
     model_mask := mask;
     model_v := v;
     model_v_proposed := proposed;
     model_0 := model_0 s;
     Cm := Cm s;
     epsilon := if ok then epsilon s else eps_set (m s) (halve eps) (epsilon s);
     like := like s;
     last_like := last_like s;
     iterations := iterations s;
     m := m s;
     valid := ok;
     pc := if ok then AfterInner else InnerLoop;
     out := call_ComputeStep (m s) eps :: out s |}.

(** The test of the outer do-while (line 600) and, when it holds, the
    head of the next pass (lines 502-503). *)
Definition loop_test (a : args) (s : state) : state :=
  if iterations s <? maxiterations a then
    {| ws := ws s; model := model s; model_mask := model_mask s;
       model_v := model_v s; model_v_proposed := model_v_proposed s;
       model_0 := model_0 s; Cm := Cm s; epsilon := epsilon s;
       like := like s; last_like := last_like s;
       iterations := iterations s;
       m := int_rem (iterations s) 2;
       valid := false;
       pc := InnerLoop;
       out := out s |}
  else
    {| ws := ws s; model := model s; model_mask := model_mask s;
       model_v := model_v s; model_v_proposed := model_v_proposed s;
       model_0 := model_0 s; Cm := Cm s; epsilon := epsilon s;
       like := like s; last_like := last_like s;
       iterations := iterations s; m := m s; valid := valid s;
       pc := Returned;
       out := out s |}.

(** [likelihood_love] as the three call sites of [invert] write it. *)
Definition lik_event (a : args) : event :=
  call_likelihood_love (damping a) (posterior a) (threshold a) (order a)
    (highorder a) (boundaryorder a) (scale a) frequency_thin.

(** The rest of a pass, lines 531-600. *)
Definition evaluate (a : args) (s : state) : state :=
  let model1 := copy_vector (model_v_proposed s) (model s) in
  let last := like s in
  let '(like1, ws1) :=
    likelihood_love (ws s) model1 (reference a) (damping a) (posterior a)
      (threshold a) (order a) (highorder a) (boundaryorder a) (scale a)
      frequency_thin in
  let out1 := lik_event a :: out s in
  if dbl_gt like1 last then
    if dbl_lt (eps_get (m s) (epsilon s)) EPSILON_MIN then
      {| ws := ws1; model := model1; model_mask := model_mask s;
         model_v := model_v s; model_v_proposed := model_v_proposed s;
         model_0 := model_0 s; Cm := Cm s; epsilon := epsilon s;
         like := like1; last_like := last;
         iterations := iterations s; m := m s; valid := valid s;
         pc := Returned;
         out := printf_Exiting (iterations s) :: out1 |}
    else
      let model2 := copy_vector (model_v s) model1 in
      let '(like2, ws2) :=
        likelihood_love ws1 model2 (reference a) (damping a) (posterior a)
          (threshold a) (order a) (highorder a) (boundaryorder a) (scale a)
          frequency_thin in
      loop_test a
        {| ws := ws2; model := model2; model_mask := model_mask s;
           model_v := model_v s; model_v_proposed := model_v_proposed s;
           model_0 := model_0 s; Cm := Cm s;
           epsilon := eps_set (m s) (halve (eps_get (m s) (epsilon s))) (epsilon s);
           like := like2; last_like := last;
           iterations := iterations s; m := m s; valid := valid s;
           pc := AfterInner;
           out := lik_event a :: printf_Backtracking (iterations s) :: out1 |}
  else
    loop_test a
      {| ws := ws1; model := model1; model_mask := model_mask s;
         model_v := model_v s; model_v_proposed := model_v_proposed s;
         model_0 := model_0 s; Cm := Cm s; epsilon := epsilon s;
         like := like1; last_like := last;
         iterations := int_incr (iterations s); m := m s; valid := valid s;
         pc := AfterInner;
         out := printf_progress (iterations s) like1 (eps_get (m s) (epsilon s))
                  :: out1 |}.

(** One transition of the driver. *)
Definition step_driver (a : args) (s : state) : state :=
  match pc s with
  | InnerLoop => attempt s
  | AfterInner => evaluate a s
  | Returned => s
  end.

(** The state after [n] transitions. *)
Fixpoint run (a : args) (n : nat) : state :=
  match n with
  | O => invert_init a
  | S n' => step_driver a (run a n')
  end.

(** Transitions until [return true], at most [fuel] of them. *)
Fixpoint exec (a : args) (fuel : nat) (s : state) : option state :=
  match pc s with
  | Returned => Some s
  | _ =>
      match fuel with
      | O => None
      | S fuel' => exec a fuel' (step_driver a s)
      end
  end.

(** [invert]: the returned boolean and the final state, or [None] when
    [fuel] transitions do not reach the [return]. *)
Definition invert (fuel : nat) (a : args) : option (bool * state) :=
  match exec a fuel (invert_init a) with
  | Some s => Some (true, s)
  | None => None
  end.

(** The same arguments with another [mode]. *)
Definition set_mode (md : Z) (a : args) : args :=
  {| a_data := a_data a; a_model := a_model a; reference := reference a;
     damping := damping a; posterior := posterior a; a_mesh := a_mesh a;
     a_love := a_love a; threshold := threshold a; order := order a;
     highorder := highorder a; boundaryorder := boundaryorder a;
     scale := scale a; _epsilon := _epsilon a;
     maxiterations := maxiterations a; mode := md |}.

(** [likelihood_love] with the configuration [invert] received. *)
Definition lik (a : args) (w : workspace) (M : model_t) : double * workspace :=
  likelihood_love w M (reference a) (damping a) (posterior a) (threshold a)
    (order a) (highorder a) (boundaryorder a) (scale a) frequency_thin.

(** The misfit that a pass evaluates at the proposal: line 538. *)
Definition evaluated (a : args) (s : state) : double :=
  fst (lik a (ws s) (copy_vector (model_v_proposed s) (model s))).

(** The three ways a pass ends. *)
Definition exits (a : args) (s : state) : bool :=
  dbl_gt (evaluated a s) (like s)
  && dbl_lt (eps_get (m s) (epsilon s)) EPSILON_MIN.

Definition backtracks (a : args) (s : state) : bool :=
  dbl_gt (evaluated a s) (like s)
  && negb (dbl_lt (eps_get (m s) (epsilon s)) EPSILON_MIN).

Definition accepts (a : args) (s : state) : bool :=
  negb (dbl_gt (evaluated a s) (like s)).

(** The misfits that the run printed as accepted, the latest first, down to
    the initial one. *)
Fixpoint accepted_misfits (l : list event) : list double :=
  match l with
  | [] => []
  | printf_progress _ x _ :: l' => x :: accepted_misfits l'
  | printf_init x :: l' => x :: accepted_misfits l'
  | _ :: l' => accepted_misfits l'
  end.

(** The number of accepted passes. *)
Fixpoint accepted_count (l : list event) : Z :=
  match l with
  | [] => 0
  | printf_progress _ _ _ :: l' => 1 + accepted_count l'
  | _ :: l' => accepted_count l'
  end.

(** The events that the transition from [s] to [s'] added to the log. *)
Definition new_events (s s' : state) : list event :=
  firstn (List.length (out s') - List.length (out s))%nat (out s').

(** The likelihood is a pure function of data and model: its value is
    [misfit data model], and what a call writes into the data does not
    change the value of later calls. *)
Definition pure_likelihood (a : args)
    (misfit : DispersionData -> model_t -> double) : Prop :=
  (forall w M, fst (lik a w M) = misfit (data w) M) /\
  (forall w M M', misfit (data (snd (lik a w M))) M' = misfit (data w) M').

(** The contract of the two [copy] overloads (specification, 4.1): writing
    the snapshot of a model back gives that model again, whatever vector
    was written in between. *)
Definition copy_restores : Prop :=
  forall M v mk p,
    copy_vector (fst (copy_model M v mk)) (copy_vector p M) = M.

(** [x] is not above [y]: the test of line 557 fails; for two numbers that
    is [x <= y]. *)
Definition not_above (x y : double) : Prop :=
  dbl_gt x y = false /\
  (PrimFloat.is_nan x = false -> PrimFloat.is_nan y = false ->
   dbl_le x y = true).

(** A list of misfits, the latest first, in which no misfit is above the
    one before it. *)
Fixpoint descending (l : list double) : Prop :=
  match l with
  | x :: l' =>
      match l' with
      | y :: _ => not_above x y /\ descending l'
      | [] => True
      end
  | [] => True
  end.

(** What holds between two passes when the likelihood is pure and [copy]
    restores: [like] is the misfit of the model and the last misfit printed
    as accepted, and after the inner loop [model_v] is the snapshot of the
    model. *)
Definition between_passes (a : args)
    (misfit : DispersionData -> model_t -> double) (s : state) : Prop :=
  descending (accepted_misfits (out s)) /\
  (pc s <> Returned ->
     hd_error (accepted_misfits (out s)) = Some (like s) /\
     like s = misfit (data (ws s)) (model s)) /\
  (pc s = AfterInner ->
     exists v mk, model_v s = fst (copy_model (model s) v mk)).

(** The counter stays between 0 and [max 1 maxiterations], counts the
    accepted passes, and is below the bound while the loop runs; the loop
    is left at the bound or on the floor. *)
Definition counter_ok (a : args) (s : state) : Prop :=
  0 <= iterations s <= Z.max 1 (maxiterations a) /\
  (pc s <> Returned -> iterations s < Z.max 1 (maxiterations a)) /\
  accepted_count (out s) = iterations s /\
  (pc s = Returned ->
     maxiterations a <= iterations s \/
     exists i, hd_error (out s) = Some (printf_Exiting i)).

(** [x] is the user's epsilon halved [k] times or more. *)
Definition halved_at_least (a : args) (k : nat) (x : double) : Prop :=
  exists k', (k <= k')%nat /\ x = halve_n k' (_epsilon a).

End Driver.

Arguments args {T}.
Arguments state {T}.

(** The same collaborators with two other step strategies. *)
Definition with_steps {T : Types} (X : Externals)
    (simple newton : LeastSquaresIterator) : Externals :=
  {| EPSILON_MIN := EPSILON_MIN;
     dmatrix_new := dmatrix_new;
     imatrix_new := imatrix_new;
     cols := cols;
     dresize := dresize;
     iresize := iresize;
     likelihood_love := likelihood_love;
     save_predictions := save_predictions;
     initialize_Cm := initialize_Cm;
     copy_model := copy_model;
     copy_vector := copy_vector;
     validate := validate;
     SimpleStep := simple;
     QuasiNewton := newton |}.

(** Two strategies that fill [model_v_proposed] alike, whatever boolean
    they return. *)
Definition same_proposal {T : Types} (it it' : LeastSquaresIterator) : Prop :=
  forall eps cd cm r g dl mk v v0 vp,
    snd (ComputeStep it eps cd cm r g dl mk v v0 vp) =
    snd (ComputeStep it' eps cd cm r g dl mk v v0 vp).

(** ** A small world to run the driver in

    One free parameter, kept as an integer: the model and the parameter
    vector are both that integer, the misfit is a function of it alone, and
    each strategy proposes a new value from the step size and the current
    value. *)

Module Toy.

#[export] Instance toy_types : Types :=
  {| DispersionData := unit; model_t := Z; mesh_t := unit;
     lovesolver_t := unit; dmatrix := Z; imatrix := unit |}.

Definition toy_step (ret : bool) (propose : double -> Z -> Z)
  : LeastSquaresIterator :=
  {| ComputeStep := fun eps _ _ _ _ _ _ v _ _ => (ret, propose eps v) |}.

Definition world (floor : double) (misfit : Z -> double)
    (simple newton : LeastSquaresIterator) (ok : Z -> bool) : Externals :=
  {| EPSILON_MIN := floor;
     dmatrix_new := 0;
     imatrix_new := tt;
     cols := fun _ => 1%N;
     dresize := fun _ _ x => x;
     iresize := fun _ _ x => x;
     likelihood_love := fun w M _ _ _ _ _ _ _ _ _ => (misfit M, w);
     save_predictions := fun _ _ => true;
     initialize_Cm := fun _ _ c => c;
     copy_model := fun M _ _ => (M, tt);
     copy_vector := fun v _ => v;
     validate := fun v _ _ _ => ok v;
     SimpleStep := simple;
     QuasiNewton := newton |}.

(** Arguments of [invert] in this world: the initial model, the step size,
    the number of iterations and the mode. *)
Definition toy_args (x0 : Z) (eps : double) (maxit md : Z) : args :=
  {| a_data := tt; a_model := x0; reference := x0; damping := [];
     posterior := false; a_mesh := tt; a_love := tt;
     threshold := 0%float; order := 5%float; highorder := 5%float;
     boundaryorder := 5%float; scale := 1%float;
     _epsilon := eps; maxiterations := maxit; mode := md |}.

(** The misfit of the examples: the distance to 10, read as a double. *)
Definition dist10 (x : Z) : double :=
  PrimFloat.of_uint63 (Uint63.of_Z (Z.abs (x - 10))).

End Toy.

(** ** Two strategies on the integer line *)

Module Line.
Import Toy.

(** The simple strategy moves one unit up. *)
Definition simple : LeastSquaresIterator := toy_step true (fun _ v => v + 1).

(** The quasi-Newton strategy jumps to 100 with a step size of 1 or more and
    moves two units up with a smaller one. *)
Definition newton : LeastSquaresIterator :=
  toy_step true (fun eps v => if dbl_lt eps 1%float then v + 2 else 100).

(** Values below 50 satisfy the prior; the floor is 2^-10. *)
Definition line : Externals :=
  world 0x1p-10%float dist10 simple newton (fun v => v <? 50).

(** A misfit that grows with the model and is not a number at 6. *)
Definition nan_at_6 (x : Z) : double :=
  if x =? 6 then PrimFloat.nan
  else PrimFloat.of_uint63 (Uint63.of_Z (Z.abs x)).

Definition line_nan : Externals :=
  world 0x1p-10%float nan_at_6 simple newton (fun v => v <? 50).

(** The same strategies with a floor of 0.75. *)
Definition line_high_floor : Externals :=
  world 0.75%float dist10 simple newton (fun v => v <? 50).

(** The run of the examples: from 9, with step size 1 and three
    iterations. *)
Definition a9 : args := toy_args 9 1%float 3 0.

End Line.

(** ** The claims that the code does not meet, as they are stated *)

(** C5 as stated: a turn of the inner loop whose proposal [validate]
    rejects changes [epsilon[m]] and [model_v_proposed] and nothing else. *)
Definition C5_as_stated {T : Types} {X : Externals} (a : args) : Prop :=
  forall n,
    pc (run a n) = InnerLoop -> valid (run a (S n)) = false ->
    let s := run a n in
    let s' := run a (S n) in
    model s' = model s /\ ws s' = ws s /\
    model_v s' = model_v s /\ model_mask s' = model_mask s /\
    model_0 s' = model_0 s /\ Cm s' = Cm s /\
    like s' = like s /\ last_like s' = last_like s /\
    iterations s' = iterations s.

(** C2 as stated: with a pure likelihood, every pass that increments the
    counter has [like <= last_like], and a pass backtracks exactly when the
    misfit it evaluated is greater than the last accepted one. *)
Definition C2_as_stated {T : Types} {X : Externals} (a : args) : Prop :=
  forall misfit, pure_likelihood a misfit -> copy_restores ->
  forall n,
    pc (run a n) = AfterInner ->
    let s := run a n in
    let s' := run a (S n) in
    (iterations s' <> iterations s ->
       dbl_le (like s') (last_like s') = true) /\
    (In (printf_Backtracking (iterations s)) (new_events s s') <->
       dbl_gt (evaluated a s) (like s) = true).

(** C3 as stated: the pass that brings the counter to [maxiterations] ends
    the loop, and so does any pass after which one of the two step sizes
    is below the floor. *)
Definition C3_as_stated {T : Types} {X : Externals} (a : args) : Prop :=
  forall n,
    pc (run a n) = AfterInner ->
    let s' := run a (S n) in
    (maxiterations a <= iterations s' -> pc s' = Returned) /\
    (dbl_lt (fst (epsilon s')) EPSILON_MIN = true \/
     dbl_lt (snd (epsilon s')) EPSILON_MIN = true ->
     pc s' = Returned).

(** ** Counting what a run logs *)

(** The backtracks and the floor exits that a log prints
    ([accepted_count] counts the accepted passes). *)
Fixpoint backtrack_count (l : list event) : Z :=
  match l with
  | [] => 0
  | printf_Backtracking _ :: l' => 1 + backtrack_count l'
  | _ :: l' => backtrack_count l'
  end.

Fixpoint exit_count (l : list event) : Z :=
  match l with
  | [] => 0
  | printf_Exiting _ :: l' => 1 + exit_count l'
  | _ :: l' => exit_count l'
  end.

(** Every progress line of a log, the latest first, carries the number of
    progress lines printed before it. *)
Fixpoint numbered (l : list event) : Prop :=
  match l with
  | [] => True
  | printf_progress i _ _ :: l' => i = accepted_count l' /\ numbered l'
  | _ :: l' => numbered l'
  end.

(** * The program around [invert]: [main] (optimizelove.cpp, lines 89-382) *)

(** [int] to [double], as the call of [invert] converts [order],
    [highorder] and [boundaryorder]; exact for every [int]. *)
Definition int_to_double (z : Z) : double :=
  if z <? 0 then PrimFloat.opp (PrimFloat.of_uint63 (Uint63.of_Z (- z)))
  else PrimFloat.of_uint63 (Uint63.of_Z z).

(** [int] to [size_t] (64 bits), as [size_t promote_order = order]. *)
Definition int_to_size_t (z : Z) : N := Z.to_N (z mod 18446744073709551616).

(** [short_options], line 36. *)
Definition short_options : string := "i:C:r:f:F:R:V:X:S:o:s:p:b:t:P:e:N:QM:h".

(** [sprintf(filename, "%s<suffix>", output_file)] into
    [char filename[1024]]: the name, when it fits with its final zero. *)
Definition sprintf_filename (output_file suffix : string) : option string :=
  if (String.length output_file + String.length suffix + 1 <=? 1024)%nat
  then Some (output_file ++ suffix)%string
  else None.

(** The local variables of [main] that the options set.  [opt_x] is the
    variable [x] of [main]. *)
Record options := {
  input_file : option string;
  phase_file : option string;
  reference_file : option string;
  output_file : option string;
  fmin : double;
  fmax : double;
  opt_threshold : double;
  opt_order : Z;
  opt_highorder : Z;
  opt_boundaryorder : Z;
  opt_scale : double;
  opt_maxiterations : Z;
  opt_epsilon : double;
  opt_damping : list double;
  nodata : bool;
  opt_mode : Z
}.

(** Lines 121-146. *)
#[warnings="-inexact-float"]
Definition defaults : options :=
  {| input_file := None; phase_file := None; reference_file := None;
     output_file := None;
     fmin := PrimFloat.div 1 40; fmax := PrimFloat.div 1 2;
     opt_threshold := 0;
     opt_order := 5; opt_highorder := 5; opt_boundaryorder := 5;
     opt_scale := 1.0e-4;
     opt_maxiterations := 5; opt_epsilon := 1;
     opt_damping := [0; 0; 0; 0]%float;
     nodata := false; opt_mode := 0 |}.

(** [l[i] = v] on an array. *)
Fixpoint array_set {A : Type} (i : nat) (v : A) (l : list A) : list A :=
  match l, i with
  | [], _ => []
  | _ :: l', O => v :: l'
  | x :: l', S i' => x :: array_set i' v l'
  end.

(** What [main] writes and calls, the latest first.  Messages are given
    without their final newline. *)
Inductive main_event {T : Types} :=
  (** [fprintf(stderr, msg)] *)
  | stderr_line (msg : string)
  (** [fprintf(stderr, "unknown option %c\n", c)] *)
  | stderr_unknown_option (c : Ascii.ascii)
  (** [fprintf(stderr, "error: failed to load model from %s\n", file)] *)
  | stderr_load_failed (file : string)
  (** [usage(argv[0])] *)
  | call_usage (pname : string)
  (** [printf("Desired range: ...")] and [printf("Actual  range: ...")] *)
  | printf_desired_range (lo hi : double)
  | printf_actual_range (lo hi : double)
  (** [m.save(filename)] with the boolean it returned *)
  | model_saved (filename : string) (M : model_t) (ok : bool)
  (** [data.save_predictions(filename)] with the boolean it returned *)
  | predictions_saved (filename : string) (d : DispersionData) (ok : bool)
  (** [invert] returned, in this state *)
  | invert_returned (s : state).

(** How [main] ends: with an exit status, or in the undefined behaviour of
    a [sprintf] past the end of [filename]. *)
Inductive outcome {T : Types} :=
  | Exit (status : Z) (log : list main_event)
  | Undefined (log : list main_event).

(** What [main] calls and the sources do not hold, as parameters: the C
    library ([atof], [atoi]) and the methods of [DispersionData],
    [ReferenceModel], [Mesh] and [LoveMatrices]; the signatures follow the
    calls of [main]. *)
Class MainExternals {T : Types} := {
  atof : string -> double;
  atoi : string -> Z;
  (** [DispersionData data(fmin, fmax)] *)
  DispersionData_new : double -> double -> DispersionData;
  (** [data.load(file)] and [data.load_phase(file)] *)
  load : DispersionData -> string -> bool * DispersionData;
  load_phase : DispersionData -> string -> bool * DispersionData;
  (** [data.initialise_target()] *)
  initialise_target : DispersionData -> DispersionData;
  (** [data.freq[data.ffirst]] and [data.freq[data.flast]] *)
  freq_ffirst : DispersionData -> double;
  freq_flast : DispersionData -> double;
  (** [reference.load(file, promote, promote_order)]: the boolean, then
      [reference.model] and [reference.reference] *)
  ReferenceModel_load : string -> bool -> N -> bool * (model_t * model_t);
  (** [m.save(filename)] *)
  model_save : model_t -> string -> bool;
  (** default-constructed [Mesh] and [LoveMatrices] *)
  Mesh_new : mesh_t;
  LoveMatrices_new : lovesolver_t
}.

Section Main.
Context {T : Types} {X : Externals} {Y : MainExternals}.

Import Ascii.
Local Open Scope char_scope.

(** The body of the [switch], lines 159-278: the variables after the
    option [c] with argument [optarg], or what [main] printed before
    [return -1]. *)
Definition handle_option (pname : string) (c : Ascii.ascii) (optarg : string)
    (v : options) : list main_event + options :=
  let set_damping i :=
    {| input_file := input_file v; phase_file := phase_file v;
       reference_file := reference_file v; output_file := output_file v;
       fmin := fmin v; fmax := fmax v; opt_threshold := opt_threshold v;
       opt_order := opt_order v; opt_highorder := opt_highorder v;
       opt_boundaryorder := opt_boundaryorder v; opt_scale := opt_scale v;
       opt_maxiterations := opt_maxiterations v;
       opt_epsilon := opt_epsilon v;
       opt_damping := array_set i (atof optarg) (opt_damping v);
       nodata := nodata v; opt_mode := opt_mode v |} in
  if (c =? "i") then
    inr {| input_file := Some optarg; phase_file := phase_file v;
           reference_file := reference_file v; output_file := output_file v;
           fmin := fmin v; fmax := fmax v; opt_threshold := opt_threshold v;
           opt_order := opt_order v; opt_highorder := opt_highorder v;
           opt_boundaryorder := opt_boundaryorder v; opt_scale := opt_scale v;
           opt_maxiterations := opt_maxiterations v;
           opt_epsilon := opt_epsilon v; opt_damping := opt_damping v;
           nodata := nodata v; opt_mode := opt_mode v |}
  else if (c =? "C") then
    inr {| input_file := input_file v; phase_file := Some optarg;
           reference_file := reference_file v; output_file := output_file v;
           fmin := fmin v; fmax := fmax v; opt_threshold := opt_threshold v;
           opt_order := opt_order v; opt_highorder := opt_highorder v;
           opt_boundaryorder := opt_boundaryorder v; opt_scale := opt_scale v;
           opt_maxiterations := opt_maxiterations v;
           opt_epsilon := opt_epsilon v; opt_damping := opt_damping v;
           nodata := nodata v; opt_mode := opt_mode v |}
  else if (c =? "r") then
    inr {| input_file := input_file v; phase_file := phase_file v;
           reference_file := Some optarg; output_file := output_file v;
           fmin := fmin v; fmax := fmax v; opt_threshold := opt_threshold v;
           opt_order := opt_order v; opt_highorder := opt_highorder v;
           opt_boundaryorder := opt_boundaryorder v; opt_scale := opt_scale v;
           opt_maxiterations := opt_maxiterations v;
           opt_epsilon := opt_epsilon v; opt_damping := opt_damping v;
           nodata := nodata v; opt_mode := opt_mode v |}
  else if (c =? "o") then
    inr {| input_file := input_file v; phase_file := phase_file v;
           reference_file := reference_file v; output_file := Some optarg;
           fmin := fmin v; fmax := fmax v; opt_threshold := opt_threshold v;
           opt_order := opt_order v; opt_highorder := opt_highorder v;
           opt_boundaryorder := opt_boundaryorder v; opt_scale := opt_scale v;
           opt_maxiterations := opt_maxiterations v;
           opt_epsilon := opt_epsilon v; opt_damping := opt_damping v;
           nodata := nodata v; opt_mode := opt_mode v |}
  else if (c =? "R") then
    if dbl_lt (atof optarg) 0
    then inl [stderr_line "error: rho std-dev must be 0 or greater"]
    else inr (set_damping 0%nat)
  else if (c =? "V") then
    if dbl_lt (atof optarg) 0
    then inl [stderr_line "error: vs std-dev must be 0 or greater"]
    else inr (set_damping 1%nat)
  else if (c =? "X") then
    if dbl_lt (atof optarg) 0
    then inl [stderr_line "error: xi std-dev must be 0 or greater"]
    else inr (set_damping 2%nat)
  else if (c =? "S") then
    if dbl_lt (atof optarg) 0
    then inl [stderr_line "error: vp/vs std-dev must be 0 or greater"]
    else inr (set_damping 3%nat)
  else if (c =? "s") then
    if dbl_le (atof optarg) 0
    then inl [stderr_line "error: scale must be positive"]
    else
      inr {| input_file := input_file v; phase_file := phase_file v;
             reference_file := reference_file v;
             output_file := output_file v;
             fmin := fmin v; fmax := fmax v;
             opt_threshold := opt_threshold v;
             opt_order := opt_order v; opt_highorder := opt_highorder v;
             opt_boundaryorder := opt_boundaryorder v;
             opt_scale := atof optarg;
             opt_maxiterations := opt_maxiterations v;
             opt_epsilon := opt_epsilon v; opt_damping := opt_damping v;
             nodata := nodata v; opt_mode := opt_mode v |}
  else if (c =? "p") then
    if (atoi optarg <? 1)%Z
    then inl [stderr_line "error: order must be 1 or greater"]
    else
      inr {| input_file := input_file v; phase_file := phase_file v;
             reference_file := reference_file v;
             output_file := output_file v;
             fmin := fmin v; fmax := fmax v;
             opt_threshold := opt_threshold v;
             opt_order := atoi optarg; opt_highorder := opt_highorder v;
             opt_boundaryorder := opt_boundaryorder v;
             opt_scale := opt_scale v;
             opt_maxiterations := opt_maxiterations v;
             opt_epsilon := opt_epsilon v; opt_damping := opt_damping v;
             nodata := nodata v; opt_mode := opt_mode v |}
  else if (c =? "b") then
    if (atoi optarg <? 1)%Z
    then inl [stderr_line "error: boundary order must be 1 or greater"]
    else
      inr {| input_file := input_file v; phase_file := phase_file v;
             reference_file := reference_file v;
             output_file := output_file v;
             fmin := fmin v; fmax := fmax v;
             opt_threshold := opt_threshold v;
             opt_order := opt_order v; opt_highorder := opt_highorder v;
             opt_boundaryorder := atoi optarg;
             opt_scale := opt_scale v;
             opt_maxiterations := opt_maxiterations v;
             opt_epsilon := opt_epsilon v; opt_damping := opt_damping v;
             nodata := nodata v; opt_mode := opt_mode v |}
  else if (c =? "t") then
    inr {| input_file := input_file v; phase_file := phase_file v;
           reference_file := reference_file v; output_file := output_file v;
           fmin := fmin v; fmax := fmax v; opt_threshold := atof optarg;
           opt_order := opt_order v; opt_highorder := opt_highorder v;
           opt_boundaryorder := opt_boundaryorder v; opt_scale := opt_scale v;
           opt_maxiterations := opt_maxiterations v;
           opt_epsilon := opt_epsilon v; opt_damping := opt_damping v;
           nodata := nodata v; opt_mode := opt_mode v |}
  else if (c =? "P") then
    if (atoi optarg <? 1)%Z
    then inl [stderr_line "error: high order must be 1 or greater"]
    else
      inr {| input_file := input_file v; phase_file := phase_file v;
             reference_file := reference_file v;
             output_file := output_file v;
             fmin := fmin v; fmax := fmax v;
             opt_threshold := opt_threshold v;
             opt_order := opt_order v; opt_highorder := atoi optarg;
             opt_boundaryorder := opt_boundaryorder v;
             opt_scale := opt_scale v;
             opt_maxiterations := opt_maxiterations v;
             opt_epsilon := opt_epsilon v; opt_damping := opt_damping v;
             nodata := nodata v; opt_mode := opt_mode v |}
  else if (c =? "N") then
    if (atoi optarg <? 1)%Z
    then inl [stderr_line "error: need at least one iteration"]
    else
      inr {| input_file := input_file v; phase_file := phase_file v;
             reference_file := reference_file v;
             output_file := output_file v;
             fmin := fmin v; fmax := fmax v;
             opt_threshold := opt_threshold v;
             opt_order := opt_order v; opt_highorder := opt_highorder v;
             opt_boundaryorder := opt_boundaryorder v;
             opt_scale := opt_scale v;
             opt_maxiterations := atoi optarg;
             opt_epsilon := opt_epsilon v; opt_damping := opt_damping v;
             nodata := nodata v; opt_mode := opt_mode v |}
  else if (c =? "e") then
    if dbl_le (atof optarg) 0
    then inl [stderr_line "error: epsilon must be positive"]
    else
      inr {| input_file := input_file v; phase_file := phase_file v;
             reference_file := reference_file v;
             output_file := output_file v;
             fmin := fmin v; fmax := fmax v;
             opt_threshold := opt_threshold v;
             opt_order := opt_order v; opt_highorder := opt_highorder v;
             opt_boundaryorder := opt_boundaryorder v;
             opt_scale := opt_scale v;
             opt_maxiterations := opt_maxiterations v;
             opt_epsilon := atof optarg; opt_damping := opt_damping v;
             nodata := nodata v; opt_mode := opt_mode v |}
  else if (c =? "Q") then
    inr {| input_file := input_file v; phase_file := phase_file v;
           reference_file := reference_file v; output_file := output_file v;
           fmin := fmin v; fmax := fmax v; opt_threshold := opt_threshold v;
           opt_order := opt_order v; opt_highorder := opt_highorder v;
           opt_boundaryorder := opt_boundaryorder v; opt_scale := opt_scale v;
           opt_maxiterations := opt_maxiterations v;
           opt_epsilon := opt_epsilon v; opt_damping := opt_damping v;
           nodata := true; opt_mode := opt_mode v |}
  else if (c =? "M") then
    if ((atoi optarg <? 0) || (1 <? atoi optarg))%Z
    then inl [stderr_line
                "error: mode must be 0 (simple gradient desc.) or 1 (q-newton)"]
    else
      inr {| input_file := input_file v; phase_file := phase_file v;
             reference_file := reference_file v;
             output_file := output_file v;
             fmin := fmin v; fmax := fmax v;
             opt_threshold := opt_threshold v;
             opt_order := opt_order v; opt_highorder := opt_highorder v;
             opt_boundaryorder := opt_boundaryorder v;
             opt_scale := opt_scale v;
             opt_maxiterations := opt_maxiterations v;
             opt_epsilon := opt_epsilon v; opt_damping := opt_damping v;
             nodata := nodata v; opt_mode := atoi optarg |}
  else if (c =? "h") then
    inl [call_usage pname]
  else
    (* default: the message, then the fall through into case 'h' *)
    inl [call_usage pname; stderr_unknown_option c].

(** The [while (true)] of lines 152-279 over the successive results of
    [getopt_long], each with its [optarg], until [getopt_long] gives -1. *)
Fixpoint getopt_loop (pname : string) (l : list (Ascii.ascii * string))
    (v : options) : list main_event + options :=
  match l with
  | [] => inr v
  | (c, optarg) :: l' =>
      match handle_option pname c optarg v with
      | inl err => inl err
      | inr v' => getopt_loop pname l' v'
      end
  end.

(** The arguments of the call of [invert], lines 344-358. *)
Definition invert_args (v : options) (d : DispersionData)
    (M R : model_t) : args :=
  {| a_data := d; a_model := M; reference := R;
     damping := opt_damping v; posterior := nodata v;
     a_mesh := Mesh_new; a_love := LoveMatrices_new;
     threshold := opt_threshold v;
     order := int_to_double (opt_order v);
     highorder := int_to_double (opt_highorder v);
     boundaryorder := int_to_double (opt_boundaryorder v);
     scale := opt_scale v;
     _epsilon := opt_epsilon v;
     maxiterations := opt_maxiterations v;
     mode := opt_mode v |}.

(** Lines 301-381, once the four file names are known. *)
Definition main_run (fuel : nat) (v : options)
    (input phase reffile output : string) : option outcome :=
  let data0 := DispersionData_new (fmin v) (fmax v) in
  let '(ok1, data1) := load data0 input in
  if negb ok1 then Some (Exit (-1) []) else
  let '(ok2, data2) := load_phase data1 phase in
  if negb ok2 then Some (Exit (-1) []) else
  let log1 := [printf_desired_range (freq_ffirst data2) (freq_flast data2)] in
  let data3 := initialise_target data2 in
  let log2 :=
    printf_actual_range (freq_ffirst data3) (freq_flast data3) :: log1 in
  let '(ok3, (M, R)) :=
    ReferenceModel_load reffile true (int_to_size_t (opt_order v)) in
  if negb ok3 then Some (Exit (-1) (stderr_load_failed reffile :: log2)) else
  match sprintf_filename output ".initial-model" with
  | None => Some (Undefined log2)
  | Some f1 =>
  let ok4 := model_save M f1 in
  let log3 := model_saved f1 M ok4 :: log2 in
  if negb ok4 then
    Some (Exit (-1) (stderr_line "error: failed to save initial model" :: log3))
  else
  match sprintf_filename output ".test-initial-model" with
  | None => Some (Undefined log3)
  | Some f2 =>
  let ok5 := model_save R f2 in
  let log4 := model_saved f2 R ok5 :: log3 in
  if negb ok5 then
    Some (Exit (-1) (stderr_line "error: failed to save initial model" :: log4))
  else
  match invert fuel (invert_args v data3 M R) with
  | None => None
  | Some (ok6, s) =>
  let log5 := invert_returned s :: log4 in
  if negb ok6 then
    Some (Exit (-1) (stderr_line "error: failed to invert" :: log5))
  else
  match sprintf_filename output ".model" with
  | None => Some (Undefined log5)
  | Some f3 =>
  let ok7 := model_save (model s) f3 in
  let log6 := model_saved f3 (model s) ok7 :: log5 in
  if negb ok7 then
    Some (Exit (-1) (stderr_line "error: failed to save model" :: log6))
  else
  match sprintf_filename output ".pred" with
  | None => Some (Undefined log6)
  | Some f4 =>
  let ok8 := save_predictions (data (ws s)) f4 in
  let log7 := predictions_saved f4 (data (ws s)) ok8 :: log6 in
  if negb ok8 then
    Some (Exit (-1) (stderr_line "error: failed to save predictions" :: log7))
  else Some (Exit 0 log7)
  end end end end end.

(** [main]: [pname] is [argv[0]], [l] the results of [getopt_long]; [None]
    when [invert] does not return within [fuel] transitions. *)
Definition main (fuel : nat) (pname : string)
    (l : list (Ascii.ascii * string)) : option outcome :=
  match getopt_loop pname l defaults with
  | inl err => Some (Exit (-1) err)
  | inr v =>
      match input_file v with
      | None =>
          Some (Exit (-1) [stderr_line "error: missing input file paramter"])
      | Some input =>
      match phase_file v with
      | None =>
          Some (Exit (-1) [stderr_line "error: missing input phase parameter"])
      | Some phase =>
      match reference_file v with
      | None =>
          Some (Exit (-1)
                  [stderr_line "error: missing reference file parameter"])
      | Some reffile =>
      match output_file v with
      | None =>
          Some (Exit (-1) [stderr_line "error: missing output file parameter"])
      | Some output => main_run fuel v input phase reffile output
      end end end end
  end.

(** The arguments with which lines 344-358 call [invert], when [main]
    gets there: the loads of lines 303-329 and the saves of lines 331-340
    succeeded, and the two names fit into [filename]. *)
Definition invert_call (v : options) (input phase reffile output : string)
    : option args :=
  let data0 := DispersionData_new (fmin v) (fmax v) in
  let '(ok1, data1) := load data0 input in
  let '(ok2, data2) := load_phase data1 phase in
  let data3 := initialise_target data2 in
  let '(ok3, (M, R)) :=
    ReferenceModel_load reffile true (int_to_size_t (opt_order v)) in
  match sprintf_filename output ".initial-model",
        sprintf_filename output ".test-initial-model" with
  | Some f1, Some f2 =>
      if ok1 && ok2 && ok3 && model_save M f1 && model_save R f2
      then Some (invert_args v data3 M R)
      else None
  | _, _ => None
  end.

(** The same from the command line: [None] when [main] returns before
    line 344. *)
Definition main_invert_call (pname : string)
    (l : list (Ascii.ascii * string)) : option args :=
  match getopt_loop pname l defaults with
  | inl _ => None
  | inr v =>
      match input_file v, phase_file v, reference_file v, output_file v with
      | Some input, Some phase, Some reffile, Some output =>
          invert_call v input phase reffile output
      | _, _, _, _ => None
      end
  end.

(** What the checks of the [switch] guarantee. *)
Definition options_ok (v : options) : Prop :=
  List.length (opt_damping v) = 4%nat /\
  Forall (fun d => dbl_lt d 0 = false) (opt_damping v) /\
  dbl_le (opt_scale v) 0 = false /\
  dbl_le (opt_epsilon v) 0 = false /\
  (1 <= opt_order v /\ 1 <= opt_highorder v /\ 1 <= opt_boundaryorder v /\
   1 <= opt_maxiterations v /\ 0 <= opt_mode v <= 1)%Z.

(** The argument of the last [c] among the options. *)
Fixpoint last_arg (c : Ascii.ascii) (l : list (Ascii.ascii * string))
    : option string :=
  match l with
  | [] => None
  | (c', optarg) :: l' =>
      match last_arg c l' with
      | Some x => Some x
      | None => if (c' =? c) then Some optarg else None
      end
  end.

(** The log of an outcome. *)
Definition outcome_log (o : outcome) : list main_event :=
  match o with
  | Exit _ log => log
  | Undefined log => log
  end.

End Main.

(** ** A command line on the integer line *)

Module ToyMain.
Import Toy Line.
Import Ascii.

(** Decimal digits, as far as they go. *)
Fixpoint digits (s : string) (acc : Z) : Z :=
  match s with
  | EmptyString => acc
  | String c s' =>
      let d := Z.of_nat (nat_of_ascii c) - 48 in
      if (0 <=? d) && (d <=? 9) then digits s' (10 * acc + d) else acc
  end.

Local Open Scope char_scope.

Definition toy_atoi (s : string) : Z :=
  match s with
  | String "-" s' => - digits s' 0
  | _ => digits s 0
  end.

(** Files always load and save; the reference file is named by the
    model it holds; [atof] reads an integer or [nan]. *)
Definition files : MainExternals :=
  {| atof := fun s =>
       if String.eqb s "nan" then PrimFloat.nan
       else int_to_double (toy_atoi s);
     atoi := toy_atoi;
     DispersionData_new := fun _ _ => tt;
     load := fun d _ => (true, d);
     load_phase := fun d _ => (true, d);
     initialise_target := fun d => d;
     freq_ffirst := fun _ => PrimFloat.div 1 40;
     freq_flast := fun _ => PrimFloat.div 1 2;
     ReferenceModel_load := fun f _ _ => (true, (toy_atoi f, toy_atoi f));
     model_save := fun _ _ => true;
     Mesh_new := tt;
     LoveMatrices_new := tt |}.

(** A misfit that is 1 below 10 and 0 from 10 on. *)
Definition step10 (x : Z) : double := if (x <? 10)%Z then 1%float else 0%float.

Definition plateau : Externals :=
  world 0x1p-10%float step10 simple newton (fun v => (v <? 50)%Z).

(** The line with a solver that counts its calls in [dkdp]. *)
Definition counting : Externals :=
  {| EPSILON_MIN := 0x1p-10%float;
     dmatrix_new := 0%Z;
     imatrix_new := tt;
     cols := fun _ => 1%N;
     dresize := fun _ _ x => x;
     iresize := fun _ _ x => x;
     likelihood_love := fun w M _ _ _ _ _ _ _ _ _ =>
       (dist10 M,
        {| data := data w; mesh := mesh w; love := love w;
           dkdp := (dkdp w + 1)%Z; dUdp := dUdp w; dLdp := dLdp w;
           G := G w; residuals := residuals w; Cd := Cd w |});
     save_predictions := fun _ _ => true;
     initialize_Cm := fun _ _ c => c;
     copy_model := fun M _ _ => (M, tt);
     copy_vector := fun v _ => v;
     validate := fun v _ _ _ => (v <? 50)%Z;
     SimpleStep := simple;
     QuasiNewton := newton |}.

(** Simple steps only, and no bounds. *)
Definition uphill : Externals :=
  world 0x1p-10%float dist10 simple simple (fun _ => true).

(** [optimizelove -i in.txt -C phase.txt -r 9 -o out -N 3] *)
Definition cmd : list (ascii * string) :=
  [("i", "in.txt"%string); ("C", "phase.txt"%string); ("r", "9"%string);
   ("o", "out"%string); ("N", "3"%string)].

(** The variables of [main] after these options. *)
Definition cmd_options : options :=
  {| input_file := Some "in.txt"%string;
     phase_file := Some "phase.txt"%string;
     reference_file := Some "9"%string; output_file := Some "out"%string;
     fmin := fmin defaults; fmax := fmax defaults;
     opt_threshold := 0; opt_order := 5; opt_highorder := 5;
     opt_boundaryorder := 5; opt_scale := opt_scale defaults;
     opt_maxiterations := 3; opt_epsilon := 1;
     opt_damping := [0; 0; 0; 0]%float; nodata := false; opt_mode := 0 |}.

(** The arguments with which [main] calls [invert] then. *)
Definition cmd_args : args := @invert_args _ files cmd_options tt 9 9.

(** A name of [n] characters. *)
Definition long_name (n : nat) : string :=
  string_of_list_ascii (repeat "x" n).

End ToyMain.

(** ** Facts about doubles *)

Section Doubles.

Lemma Prim2SF_half : Prim2SF 0.5%float = SFhalf.
Proof. vm_compute. reflexivity. Qed.

Lemma digits2_pos_Z m : Zpos (digits2_pos m) = Z.log2 (Zpos m) + 1.
Proof.
  induction m; cbn [digits2_pos]; rewrite ?Pos2Z.inj_succ, ?IHm.
  - rewrite Pos2Z.inj_xI, Z.log2_succ_double by lia. lia.
  - rewrite Pos2Z.inj_xO, Z.log2_double by lia. lia.
  - reflexivity.
Qed.

Lemma mul_half_normal s m e :
  bounded prec emax m e = true -> -1074 < e ->
  SF64mul (S754_finite s m e) SFhalf = S754_finite s m (e - 1).
Proof.
  unfold bounded, canonical_mantissa, fexp, SpecFloat.emin, prec, emax.
  intros H He. apply andb_prop in H. destruct H as [H1 H2].
  apply Z.eqb_eq in H1. apply Z.leb_le in H2.
  assert (D : Zpos (digits2_pos m) = 53) by lia.
  unfold SF64mul, SFmul, SFhalf.
  rewrite Pos.mul_comm.
  unfold binary_round_aux, shr_fexp.
  unfold Zdigits2 at 1.
  assert (D2 : Zpos (digits2_pos (4503599627370496 * m)) = 105).
  { rewrite digits2_pos_Z in *. rewrite Pos2Z.inj_mul.
    change (Zpos 4503599627370496) with (2^52).
    rewrite Z.mul_comm, Z.log2_mul_pow2 by lia. lia. }
  rewrite D2.
  replace (fexp prec emax (105 + (e + -53)) - (e + -53)) with 52
    by (unfold fexp, SpecFloat.emin, prec, emax; lia).
  cbn -[fexp Z.sub Z.add Z.leb].
  rewrite xorb_false_r.
  rewrite D.
  replace (fexp prec emax (53 + (e + -53 + 52)) - (e + -53 + 52)) with 0
    by (unfold fexp, SpecFloat.emin, prec, emax; lia).
  cbn -[Z.sub Z.add Z.leb].
  replace (e + -53 + 52 <=? emax - prec) with true
    by (symmetry; apply Z.leb_le; unfold emax, prec; lia).
  f_equal. lia.
Qed.

Lemma digits2_pos_succ p : Zpos (digits2_pos (Pos.succ p)) <= Zpos (digits2_pos p) + 1.
Proof.
  rewrite !digits2_pos_Z, Pos2Z.inj_succ.
  pose proof (Z.log2_succ_le (Zpos p)). lia.
Qed.

Lemma mul_half_subnormal s m :
  bounded prec emax m (-1074) = true ->
  SF64mul (S754_finite s m (-1074)) SFhalf =
  match m with
  | xH => S754_zero s
  | xO p => S754_finite s p (-1074)
  | xI p => if Z.even (Zpos p) then S754_finite s p (-1074)
            else S754_finite s (Pos.succ p) (-1074)
  end.
Proof.
  unfold bounded, canonical_mantissa, fexp, SpecFloat.emin, prec, emax.
  intros H. apply andb_prop in H. destruct H as [H1 _].
  apply Z.eqb_eq in H1.
  assert (D : Zpos (digits2_pos m) <= 53) by lia.
  unfold SF64mul, SFmul, SFhalf.
  rewrite Pos.mul_comm.
  unfold binary_round_aux, shr_fexp.
  unfold Zdigits2 at 1.
  assert (D2 : Zpos (digits2_pos (4503599627370496 * m)) = Zpos (digits2_pos m) + 52).
  { rewrite !digits2_pos_Z. rewrite Pos2Z.inj_mul.
    change (Zpos 4503599627370496) with (2^52).
    rewrite Z.mul_comm, Z.log2_mul_pow2 by lia. lia. }
  rewrite D2.
  replace (fexp prec emax (Zpos (digits2_pos m) + 52 + (-1074 + -53)) - (-1074 + -53)) with 53
    by (unfold fexp, SpecFloat.emin, prec, emax; lia).
  rewrite xorb_false_r.
  destruct m as [p|p|].
  - cbn -[fexp Z.sub Z.add Z.leb Z.even Zdigits2].
    cbn [digits2_pos] in D. rewrite Pos2Z.inj_succ in D.
    destruct (Z.even (Zpos p)).
    + cbn [Zdigits2].
      replace (fexp prec emax (Zpos (digits2_pos p) + (-1074 + -53 + 53)) - (-1074 + -53 + 53)) with 0
        by (unfold fexp, SpecFloat.emin, prec, emax; lia).
      cbn. reflexivity.
    + change (Zpos p + 1) with (Zpos (p + 1)). cbn [Zdigits2].
      rewrite Pos.add_1_r.
      pose proof (digits2_pos_succ p).
      replace (fexp prec emax (Zpos (digits2_pos (Pos.succ p)) + (-1074 + -53 + 53)) - (-1074 + -53 + 53)) with 0
        by (unfold fexp, SpecFloat.emin, prec, emax; lia).
      cbn. reflexivity.
  - cbn -[fexp Z.sub Z.add Z.leb Z.even Zdigits2].
    cbn [digits2_pos] in D. rewrite Pos2Z.inj_succ in D.
    cbn [Zdigits2].
    replace (fexp prec emax (Zpos (digits2_pos p) + (-1074 + -53 + 53)) - (-1074 + -53 + 53)) with 0
        by (unfold fexp, SpecFloat.emin, prec, emax; lia).
    cbn. reflexivity.
  - cbn. reflexivity.
Qed.


Lemma halve_spec x : Prim2SF (halve x) = SFhalve (Prim2SF x).
Proof. unfold halve, SFhalve; now rewrite mul_spec, Prim2SF_half. Qed.

Lemma SFleb_zero x : SFleb (S754_zero false) x = sf_nonneg x.
Proof. destruct x as [s|s| |s m e]; try destruct s; reflexivity. Qed.

Lemma SFhalve_cases x :
  valid_binary x = true ->
  match x with
  | S754_finite s m e =>
      (-1074 < e /\ SFhalve x = S754_finite s m (e - 1)) \/
      (e = -1074 /\
       (SFhalve x = S754_zero s \/
        exists m', (m' < m)%positive /\ SFhalve x = S754_finite s m' e))
  | _ => SFhalve x = x
  end.
Proof.
  destruct x as [s|s| |s m e]; cbn [valid_binary]; intros V.
  - cbn; now rewrite xorb_false_r.
  - cbn; now rewrite xorb_false_r.
  - reflexivity.
  - assert (B : -1074 <= e).
    { unfold bounded, canonical_mantissa, fexp, SpecFloat.emin, prec, emax in V.
      apply andb_prop in V; destruct V as [V _]; apply Z.eqb_eq in V; lia. }
    destruct (Z.eq_dec e (-1074)) as [->|Ne].
    + right; split; [reflexivity|]; unfold SFhalve.
      rewrite (mul_half_subnormal s m V).
      destruct m as [p|p|].
      * right; destruct (Z.even (Zpos p)); eexists; (split; [|reflexivity]); lia.
      * right; eexists; (split; [|reflexivity]); lia.
      * now left.
    + left; split; [lia|]; apply mul_half_normal; [exact V | lia].
Qed.

Lemma SFhalve_nonneg x :
  valid_binary x = true -> sf_nonneg x = true -> sf_nonneg (SFhalve x) = true.
Proof.
  intros V N; pose proof (SFhalve_cases x V) as H.
  destruct x as [s|s| |s m e]; try (rewrite H; exact N).
  destruct s; [discriminate|].
  destruct H as [(_ & ->) | (_ & [-> | (m' & _ & ->)])]; reflexivity.
Qed.

Lemma SFhalve_le x :
  valid_binary x = true -> sf_nonneg x = true -> SFleb (SFhalve x) x = true.
Proof.
  intros V N; pose proof (SFhalve_cases x V) as H.
  destruct x as [s|s| |s m e]; try discriminate.
  - rewrite H; reflexivity.
  - rewrite H; destruct s; [discriminate | reflexivity].
  - destruct s; [discriminate|].
    destruct H as [(He & ->) | (_ & [-> | (m' & Hm & ->)])].
    + unfold SFleb, SFcompare.
      replace (e - 1 ?= e) with Lt by (symmetry; apply Z.compare_lt_iff; lia).
      reflexivity.
    + reflexivity.
    + unfold SFleb, SFcompare; rewrite Z.compare_refl.
      change (Pos.compare_cont Eq m' m) with (m' ?= m)%positive.
      now rewrite (proj2 (Pos.compare_lt_iff m' m) Hm).
Qed.

Lemma halve_n_shift k x : halve_n (S k) x = halve_n k (halve x).
Proof. induction k as [|k IH]; [reflexivity|]; cbn [halve_n] in *; now rewrite IH. Qed.

Lemma halve_n_zero k x :
  sf_zero (Prim2SF x) = true -> sf_zero (Prim2SF (halve_n k x)) = true.
Proof.
  induction k as [|k IH]; [auto|]; intros Z; cbn [halve_n].
  specialize (IH Z); rewrite halve_spec.
  destruct (Prim2SF (halve_n k x)); try discriminate; reflexivity.
Qed.

Lemma halve_n_vanishes_sized n : forall x,
  (sf_size (Prim2SF x) <= n)%nat -> sf_finite (Prim2SF x) = true ->
  forall k, (n <= k)%nat -> sf_zero (Prim2SF (halve_n k x)) = true.
Proof.
  induction n as [|n IH]; intros x Hs Hf k Hk.
  - apply halve_n_zero.
    destruct (Prim2SF x) as [s|s| |s m e] eqn:E; try discriminate; [reflexivity|].
    pose proof (Prim2SF_valid x) as V; rewrite E in V; cbn in V, Hs.
    unfold bounded, canonical_mantissa, fexp, SpecFloat.emin, prec, emax in V.
    apply andb_prop in V; destruct V as [V _]; apply Z.eqb_eq in V; lia.
  - destruct k as [|k]; [lia|]; rewrite halve_n_shift.
    pose proof (Prim2SF_valid x) as V.
    pose proof (SFhalve_cases _ V) as H.
    destruct (Prim2SF x) as [s|s| |s m e] eqn:E; try discriminate.
    + apply halve_n_zero; rewrite halve_spec, E, H; reflexivity.
    + apply IH; [| |lia]; rewrite halve_spec, E.
      * destruct H as [(He & ->) | (-> & [-> | (m' & Hm & ->)])]; cbn in *; lia.
      * destruct H as [(He & ->) | (-> & [-> | (m' & Hm & ->)])]; reflexivity.
Qed.

Lemma Prim2SF_zero : Prim2SF 0%float = S754_zero false.
Proof. vm_compute; reflexivity. Qed.

Lemma Prim2SF_infinity : Prim2SF infinity = S754_infinity false.
Proof. vm_compute; reflexivity. Qed.

Lemma dbl_le_zero x : dbl_le 0 x = sf_nonneg (Prim2SF x).
Proof. unfold dbl_le; now rewrite leb_spec, Prim2SF_zero, SFleb_zero. Qed.

Lemma dbl_lt_zero_le x : dbl_lt 0 x = true -> dbl_le 0 x = true.
Proof.
  unfold dbl_lt, dbl_le; rewrite ltb_spec, leb_spec; unfold SFltb, SFleb.
  destruct (SFcompare _ _) as [[| |]|]; congruence.
Qed.

(** Halving a number that is not negative gives one that is not negative
    and not greater. *)
Lemma halve_nonneg x : dbl_le 0 x = true -> dbl_le 0 (halve x) = true.
Proof.
  rewrite !dbl_le_zero, halve_spec; apply SFhalve_nonneg, Prim2SF_valid.
Qed.

Lemma halve_le x : dbl_le 0 x = true -> dbl_le (halve x) x = true.
Proof.
  rewrite dbl_le_zero; intros H; unfold dbl_le.
  rewrite leb_spec, halve_spec; apply SFhalve_le; [apply Prim2SF_valid | exact H].
Qed.

Lemma dbl_lt_zero_floor y E :
  dbl_lt 0 E = true -> sf_zero (Prim2SF y) = true -> dbl_lt y E = true.
Proof.
  unfold dbl_lt; rewrite !ltb_spec, Prim2SF_zero.
  destruct (Prim2SF y) as [s| | |]; try discriminate; intros H _.
  destruct (Prim2SF E) as [s'|s'| |s' m e]; exact H.
Qed.

(** Halving a finite number that is not negative often enough brings it,
    for good, below any positive floor. *)
Lemma halve_n_below_floor x E :
  dbl_le 0 x = true -> dbl_lt x infinity = true -> dbl_lt 0 E = true ->
  exists N, forall k, (N <= k)%nat -> dbl_lt (halve_n k x) E = true.
Proof.
  rewrite dbl_le_zero; unfold dbl_lt at 1; rewrite ltb_spec, Prim2SF_infinity.
  intros Hn Hi HE; exists (sf_size (Prim2SF x)); intros k Hk.
  apply dbl_lt_zero_floor; [exact HE|].
  apply (halve_n_vanishes_sized (sf_size (Prim2SF x))); auto.
  destruct (Prim2SF x) as [s|s| |s m e]; try discriminate; try reflexivity.
  destruct s; discriminate.
Qed.

Lemma not_nan_spec x : PrimFloat.is_nan x = false -> Prim2SF x <> S754_nan.
Proof.
  unfold PrimFloat.is_nan; rewrite eqb_spec; intros H E; rewrite E in H.
  discriminate.
Qed.

Lemma SFcompare_antisym x y c :
  SFcompare x y = Some c -> SFcompare y x = Some (CompOpp c).
Proof.
  destruct x as [s|s| |s m e], y as [s'|s'| |s' m' e']; cbn; intros H;
    try discriminate; injection H as <-;
    try (now destruct s); try (now destruct s'); try (now destruct s, s').
  destruct s, s'; try reflexivity; f_equal;
    rewrite (Z.compare_antisym e e'); destruct (e ?= e'); cbn;
    try reflexivity;
    change (PosDef.Pos.compare_cont Eq m' m) with (m' ?= m)%positive;
    change (PosDef.Pos.compare_cont Eq m m') with (m ?= m')%positive;
    rewrite (Pos.compare_antisym m m'); destruct (m ?= m')%positive;
    reflexivity.
Qed.

(** Between two numbers, not greater is less or equal. *)
Lemma dbl_not_gt_le a b :
  PrimFloat.is_nan a = false -> PrimFloat.is_nan b = false ->
  dbl_gt a b = false -> dbl_le a b = true.
Proof.
  intros Ha Hb; apply not_nan_spec in Ha, Hb.
  unfold dbl_gt, dbl_le; rewrite ltb_spec, leb_spec; unfold SFltb, SFleb.
  destruct (SFcompare (Prim2SF b) (Prim2SF a)) as [c|] eqn:E.
  - rewrite (SFcompare_antisym _ _ _ E); destruct c; cbn; congruence.
  - destruct (Prim2SF a), (Prim2SF b); cbn in E; congruence.
Qed.

Lemma SFleb_not_SFltb x y : SFleb x y = true -> SFltb y x = false.
Proof.
  unfold SFltb, SFleb.
  destruct (SFcompare x y) as [c|] eqn:E; [|discriminate].
  rewrite (SFcompare_antisym _ _ _ E); destruct c; cbn; congruence.
Qed.

Lemma dbl_lt_zero x : dbl_lt x 0 = negb (sf_not_neg (Prim2SF x)).
Proof.
  unfold dbl_lt; rewrite ltb_spec, Prim2SF_zero.
  destruct (Prim2SF x) as [s|s| |s m e]; try destruct s; reflexivity.
Qed.

(** Halving a double that is not negative, NaN included, gives one that
    is not negative and not greater. *)
Lemma halve_not_neg x : dbl_lt x 0 = false -> dbl_lt (halve x) 0 = false.
Proof.
  rewrite !dbl_lt_zero, halve_spec, !negb_false_iff.
  pose proof (SFhalve_nonneg (Prim2SF x) (Prim2SF_valid x)) as H.
  destruct (Prim2SF x) as [s|s| |s m e]; cbn [sf_not_neg]; intros N;
    try reflexivity; specialize (H N);
    destruct (SFhalve _); try discriminate; try reflexivity; exact H.
Qed.

Lemma halve_not_gt x : dbl_lt x 0 = false -> dbl_gt (halve x) x = false.
Proof.
  rewrite dbl_lt_zero, negb_false_iff; unfold dbl_gt.
  rewrite ltb_spec, halve_spec; intros N.
  destruct (Prim2SF x) as [s|s| |s m e] eqn:E; try reflexivity;
    apply SFleb_not_SFltb, SFhalve_le; try exact N;
    rewrite <- E; apply Prim2SF_valid.
Qed.

Lemma dbl_gt_irrefl x : dbl_gt x x = false.
Proof.
  unfold dbl_gt; rewrite ltb_spec; unfold SFltb.
  destruct (Prim2SF x) as [s|s| |s m e]; try reflexivity.
  - now destruct s.
  - cbn; rewrite Z.compare_refl.
    change (PosDef.Pos.compare_cont Eq m m) with (m ?= m)%positive.
    rewrite Pos.compare_refl; now destruct s.
Qed.

Lemma dbl_le_refl x : dbl_le 0 x = true -> dbl_le x x = true.
Proof.
  rewrite dbl_le_zero; unfold dbl_le; rewrite leb_spec; unfold SFleb.
  destruct (Prim2SF x) as [s|s| |s m e]; try discriminate; try reflexivity.
  - destruct s; [discriminate | reflexivity].
  - destruct s; [discriminate|]; intros _; cbn.
    rewrite Z.compare_refl.
    change (PosDef.Pos.compare_cont Eq m m) with (m ?= m)%positive.
    now rewrite Pos.compare_refl.
Qed.

End Doubles.

(** ** Basic facts about the transitions *)

Section Basics.
Context {T : Types} {X : Externals}.
Implicit Types (a : args) (s : state).

Lemma loop_test_fields a s :
  ws (loop_test a s) = ws s /\ model (loop_test a s) = model s /\
  model_mask (loop_test a s) = model_mask s /\
  model_v (loop_test a s) = model_v s /\
  model_v_proposed (loop_test a s) = model_v_proposed s /\
  model_0 (loop_test a s) = model_0 s /\ Cm (loop_test a s) = Cm s /\
  epsilon (loop_test a s) = epsilon s /\ like (loop_test a s) = like s /\
  last_like (loop_test a s) = last_like s /\
  iterations (loop_test a s) = iterations s /\ out (loop_test a s) = out s.
Proof. unfold loop_test; destruct (_ <? _); cbn; repeat split. Qed.

Lemma loop_test_pc a s :
  pc (loop_test a s) =
  if iterations s <? maxiterations a then InnerLoop else Returned.
Proof. unfold loop_test; destruct (_ <? _); reflexivity. Qed.

Lemma loop_test_m a s :
  pc (loop_test a s) = InnerLoop ->
  m (loop_test a s) = int_rem (iterations s) 2.
Proof. unfold loop_test; destruct (_ <? _); cbn; [reflexivity | discriminate]. Qed.

Lemma step_driver_returned a s : pc s = Returned -> step_driver a s = s.
Proof. intros H; unfold step_driver; now rewrite H. Qed.

Lemma run_returned a n k :
  pc (run a n) = Returned -> run a (n + k) = run a n.
Proof.
  intros H; induction k as [|k IH].
  - now rewrite Nat.add_0_r.
  - rewrite Nat.add_succ_r; cbn [run]; rewrite IH.
    now apply step_driver_returned.
Qed.

(** A property of the initial state that every transition preserves holds
    all along the run. *)
Lemma run_invariant a (P : state -> Prop) :
  P (invert_init a) ->
  (forall s, P s -> P (step_driver a s)) ->
  forall n, P (run a n).
Proof. intros H0 HS n; induction n; cbn [run]; auto. Qed.

Lemma exec_run a fuel : forall n s,
  exec a fuel (run a n) = Some s ->
  exists k, (k <= fuel)%nat /\ s = run a (n + k) /\ pc s = Returned.
Proof.
  induction fuel as [|f IH]; intros n s; cbn [exec].
  - destruct (pc (run a n)) eqn:E; try discriminate.
    intros [= <-]; exists O; rewrite Nat.add_0_r; auto.
  - destruct (pc (run a n)) eqn:E.
    + intros H; apply (IH (S n)) in H; destruct H as (k & Hk & -> & Hp).
      exists (S k); rewrite Nat.add_succ_r; repeat split; auto; lia.
    + intros H; apply (IH (S n)) in H; destruct H as (k & Hk & -> & Hp).
      exists (S k); rewrite Nat.add_succ_r; repeat split; auto; lia.
    + intros [= <-]; exists O; rewrite Nat.add_0_r; repeat split; auto; lia.
Qed.

Lemma exec_reaches a : forall k n fuel,
  pc (run a (n + k)) = Returned -> (k <= fuel)%nat ->
  exec a fuel (run a n) = Some (run a (n + k)).
Proof.
  induction k as [|k IH]; intros n fuel H Hf.
  - rewrite Nat.add_0_r in *; destruct fuel; cbn [exec]; now rewrite H.
  - destruct fuel as [|f]; [lia|]; cbn [exec].
    destruct (pc (run a n)) eqn:E.
    + rewrite Nat.add_succ_r in *; apply (IH (S n)); [exact H | lia].
    + rewrite Nat.add_succ_r in *; apply (IH (S n)); [exact H | lia].
    + now rewrite (run_returned a n (S k) E).
Qed.

(** [invert] returns exactly when the run reaches [Returned]. *)
Lemma invert_reaches a n fuel :
  pc (run a n) = Returned -> (n <= fuel)%nat ->
  invert fuel a = Some (true, run a n).
Proof.
  intros H Hf; unfold invert.
  change (invert_init a) with (run a 0).
  now rewrite (exec_reaches a n 0 fuel H Hf).
Qed.

End Basics.

(** ** The passes of the loop *)

Section Passes.
Context {T : Types} {X : Externals}.
Implicit Types (a : args) (s : state).

Lemma eps_get_set_same i v e : eps_get i (eps_set i v e) = v.
Proof. unfold eps_get, eps_set; destruct (i =? 0) eqn:E; cbn; now rewrite ?E. Qed.

Lemma eps_get_set_other i j v e :
  (i =? 0) <> (j =? 0) -> eps_get i (eps_set j v e) = eps_get i e.
Proof.
  unfold eps_get, eps_set; destruct (i =? 0) eqn:E, (j =? 0) eqn:F; cbn;
    congruence.
Qed.

(** What [evaluate] does when the pass backtracks. *)
Lemma evaluate_backtrack a s :
  backtracks a s = true ->
  let model1 := copy_vector (model_v_proposed s) (model s) in
  let model2 := copy_vector (model_v s) model1 in
  let r1 := lik a (ws s) model1 in
  let r2 := lik a (snd r1) model2 in
  evaluate a s =
  loop_test a
    {| ws := snd r2; model := model2; model_mask := model_mask s;
       model_v := model_v s; model_v_proposed := model_v_proposed s;
       model_0 := model_0 s; Cm := Cm s;
       epsilon := eps_set (m s) (halve (eps_get (m s) (epsilon s))) (epsilon s);
       like := fst r2; last_like := like s;
       iterations := iterations s; m := m s; valid := valid s;
       pc := AfterInner;
       out := lik_event a :: printf_Backtracking (iterations s)
                :: lik_event a :: out s |}.
Proof.
  unfold backtracks, evaluated, evaluate, lik; cbn zeta.
  destruct (likelihood_love (ws s) _ _ _ _ _ _ _ _ _ _) as [l1 w1]; cbn [fst snd].
  intros H; apply andb_prop in H; destruct H as [-> H].
  apply negb_true_iff in H; rewrite H.
  destruct (likelihood_love w1 _ _ _ _ _ _ _ _ _ _) as [l2 w2]; reflexivity.
Qed.

(** What [evaluate] does when the pass leaves the loop on the floor. *)
Lemma evaluate_exit a s :
  exits a s = true ->
  let model1 := copy_vector (model_v_proposed s) (model s) in
  let r1 := lik a (ws s) model1 in
  evaluate a s =
  {| ws := snd r1; model := model1; model_mask := model_mask s;
     model_v := model_v s; model_v_proposed := model_v_proposed s;
     model_0 := model_0 s; Cm := Cm s; epsilon := epsilon s;
     like := fst r1; last_like := like s;
     iterations := iterations s; m := m s; valid := valid s;
     pc := Returned;
     out := printf_Exiting (iterations s) :: lik_event a :: out s |}.
Proof.
  unfold exits, evaluated, evaluate, lik; cbn zeta.
  destruct (likelihood_love (ws s) _ _ _ _ _ _ _ _ _ _) as [l1 w1]; cbn [fst snd].
  intros H; apply andb_prop in H; destruct H as [-> ->]; reflexivity.
Qed.

(** What [evaluate] does when the pass accepts the proposal. *)
Lemma evaluate_accept a s :
  accepts a s = true ->
  let model1 := copy_vector (model_v_proposed s) (model s) in
  let r1 := lik a (ws s) model1 in
  evaluate a s =
  loop_test a
    {| ws := snd r1; model := model1; model_mask := model_mask s;
       model_v := model_v s; model_v_proposed := model_v_proposed s;
       model_0 := model_0 s; Cm := Cm s; epsilon := epsilon s;
       like := fst r1; last_like := like s;
       iterations := int_incr (iterations s); m := m s; valid := valid s;
       pc := AfterInner;
       out := printf_progress (iterations s) (fst r1)
                (eps_get (m s) (epsilon s)) :: lik_event a :: out s |}.
Proof.
  unfold accepts, evaluated, evaluate, lik; cbn zeta.
  destruct (likelihood_love (ws s) _ _ _ _ _ _ _ _ _ _) as [l1 w1]; cbn [fst snd].
  intros H; apply negb_true_iff in H; rewrite H; reflexivity.
Qed.

(** Exactly one of the three. *)
Lemma pass_cases a s :
  (accepts a s = true /\ backtracks a s = false /\ exits a s = false) \/
  (accepts a s = false /\ backtracks a s = true /\ exits a s = false) \/
  (accepts a s = false /\ backtracks a s = false /\ exits a s = true).
Proof.
  unfold accepts, backtracks, exits.
  destruct (dbl_gt _ _), (dbl_lt _ _); cbn; auto.
Qed.

(** One turn of the inner loop, field by field. *)
Lemma attempt_fields s :
  let c := copy_model (model s) (model_v s) (model_mask s) in
  let eps := eps_get (m s) (epsilon s) in
  let r := ComputeStep (step (m s)) eps (Cd (ws s)) (Cm s) (residuals (ws s))
             (G (ws s)) (dLdp (ws s)) (snd c) (fst c) (model_0 s)
             (model_v_proposed s) in
  let ok := validate (snd r) (snd c) PRIOR_MIN PRIOR_MAX in
  attempt s =
  {| ws := ws s; model := model s; model_mask := snd c; model_v := fst c;
     model_v_proposed := snd r; model_0 := model_0 s; Cm := Cm s;
     epsilon := if ok then epsilon s else eps_set (m s) (halve eps) (epsilon s);
     like := like s; last_like := last_like s; iterations := iterations s;
     m := m s; valid := ok; pc := if ok then AfterInner else InnerLoop;
     out := call_ComputeStep (m s) eps :: out s |}.
Proof.
  unfold attempt; cbn zeta.
  destruct (copy_model _ _ _) as [v mk]; cbn [fst snd].
  destruct (ComputeStep _ _ _ _ _ _ _ _ _ _ _) as [b p]; reflexivity.
Qed.

(** The initial state, field by field. *)
Lemma invert_init_fields a :
  let ws0 :=
    {| data := a_data a; mesh := a_mesh a; love := a_love a;
       dkdp := dmatrix_new; dUdp := dmatrix_new; dLdp := dmatrix_new;
       G := dmatrix_new; residuals := dmatrix_new; Cd := dmatrix_new |} in
  let r := lik a ws0 (a_model a) in
  let nparam := cols (G (snd r)) in
  let c := copy_model (reference a) (dresize nparam 1 dmatrix_new)
             (iresize nparam 1 imatrix_new) in
  invert_init a =
  {| ws := snd r; model := a_model a; model_mask := snd c;
     model_v := dresize nparam 1 dmatrix_new;
     model_v_proposed := dresize nparam 1 dmatrix_new;
     model_0 := fst c;
     Cm := initialize_Cm (a_model a) (damping a) (dresize nparam 1 dmatrix_new);
     epsilon := (_epsilon a, _epsilon a);
     like := fst r; last_like := fst r; iterations := 0; m := int_rem 0 2;
     valid := false; pc := InnerLoop;
     out := if save_predictions (data (snd r)) "initial_predictions.txt"
            then [printf_init (fst r); lik_event a]
            else [fprintf_save_failed; printf_init (fst r); lik_event a] |}.
Proof.
  unfold invert_init, lik; cbn zeta.
  destruct (likelihood_love _ _ _ _ _ _ _ _ _ _ _) as [l w]; cbn [fst snd].
  destruct (copy_model _ _ _) as [v mk]; reflexivity.
Qed.

(** After the inner loop the last proposal was a valid one. *)
Lemma valid_after_inner a n :
  pc (run a n) = AfterInner -> valid (run a n) = true.
Proof.
  apply (run_invariant a (fun s => pc s = AfterInner -> valid s = true)).
  - rewrite invert_init_fields; discriminate.
  - intros s IH; unfold step_driver; destruct (pc s) eqn:E.
    + rewrite attempt_fields; cbn. destruct (validate _ _ _ _); auto; discriminate.
    + destruct (pass_cases a s) as [(H & _) | [(_ & H & _) | (_ & _ & H)]].
      * rewrite (evaluate_accept a s H), loop_test_pc.
        destruct (_ <? _); discriminate.
      * rewrite (evaluate_backtrack a s H), loop_test_pc.
        destruct (_ <? _); discriminate.
      * rewrite (evaluate_exit a s H); discriminate.
    + congruence.
Qed.

End Passes.

(** ** The claims about one pass *)

Section PassClaims.
Context {T : Types} {X : Externals}.
Implicit Types (a : args) (s : state).

(** C1: in a pass of the invert loop whose newly evaluated misfit is
    greater than the last accepted one ([like > last_like], line 557) while
    [epsilon[m]] is not below [EPSILON_MIN], the driver halves [epsilon[m]],
    copies the snapshot [model_v] back into the model, recomputes the misfit
    at that restored model with [likelihood_love], prints "Backtracking"
    and leaves the iteration counter as it was. *)
Theorem C1_backtrack_on_worse_misfit a s :
  pc s = AfterInner ->
  dbl_gt (evaluated a s) (like s) = true ->
  dbl_lt (eps_get (m s) (epsilon s)) EPSILON_MIN = false ->
  let s' := step_driver a s in
  let proposed := copy_vector (model_v_proposed s) (model s) in
  let ws1 := snd (lik a (ws s) proposed) in
  eps_get (m s) (epsilon s') = halve (eps_get (m s) (epsilon s)) /\
  model s' = copy_vector (model_v s) proposed /\
  like s' = fst (lik a ws1 (model s')) /\
  ws s' = snd (lik a ws1 (model s')) /\
  iterations s' = iterations s /\
  out s' = lik_event a :: printf_Backtracking (iterations s)
             :: lik_event a :: out s.
Proof.
  intros Hpc Hgt Hlt s'; subst s'; unfold step_driver; rewrite Hpc.
  assert (B : backtracks a s = true)
    by (unfold backtracks; now rewrite Hgt, Hlt).
  rewrite (evaluate_backtrack a s B); cbn zeta.
  match goal with |- context [loop_test a ?r] =>
    destruct (loop_test_fields a r)
      as (Hw & Hm & _ & _ & _ & _ & _ & He & Hl & _ & Hi & Ho)
  end.
  rewrite Hw, Hm, He, Hl, Hi, Ho; cbn.
  rewrite eps_get_set_same; repeat split.
Qed.

(** C6: when the loop is left on the floor (lines 559-561, "Exiting"
    printed), the model with which [invert] returns is the proposal that
    line 531 copied into it and that was just evaluated worse: nothing
    writes the model after the break, neither the snapshot [model_v] nor an
    earlier accepted model is restored. *)
Theorem C6_floor_exit_keeps_proposal a n :
  pc (run a n) = AfterInner ->
  exits a (run a n) = true ->
  let s := run a n in
  let rejected := copy_vector (model_v_proposed s) (model s) in
  out (run a (S n)) = printf_Exiting (iterations s) :: lik_event a :: out s /\
  like (run a (S n)) = evaluated a s /\
  dbl_gt (like (run a (S n))) (last_like (run a (S n))) = true /\
  (forall k, model (run a (S n + k)) = rejected) /\
  (forall fuel, (S n <= fuel)%nat ->
     exists s', invert fuel a = Some (true, s') /\ model s' = rejected).
Proof.
  intros Hpc Hex; cbn zeta.
  set (s := run a n) in *.
  set (rejected := copy_vector (model_v_proposed s) (model s)).
  assert (E : run a (S n) = evaluate a s)
    by (cbn [run]; fold s; unfold step_driver; now rewrite Hpc).
  assert (R : pc (run a (S n)) = Returned)
    by (rewrite E, (evaluate_exit a s Hex); reflexivity).
  assert (M : model (run a (S n)) = rejected)
    by (rewrite E, (evaluate_exit a s Hex); reflexivity).
  repeat split.
  - rewrite E, (evaluate_exit a s Hex); reflexivity.
  - rewrite E, (evaluate_exit a s Hex); reflexivity.
  - rewrite E, (evaluate_exit a s Hex); cbn.
    unfold exits in Hex; apply andb_prop in Hex; apply Hex.
  - intros k; now rewrite (run_returned a (S n) k R).
  - intros fuel Hf; exists (run a (S n)); split; [|exact M].
    now apply invert_reaches.
Qed.

(** C9: whenever [invert] returns, it returns [true]: the run has reached
    the only [return] of the function, line 602, whether through the loop
    test or through the break on the floor, and whatever rejections and
    backtracks came before. *)
Theorem C9_invert_returns_true fuel a r s :
  invert fuel a = Some (r, s) ->
  r = true /\
  exists n, (n <= fuel)%nat /\ s = run a n /\ pc s = Returned.
Proof.
  unfold invert; change (invert_init a) with (run a 0).
  destruct (exec a fuel (run a 0)) as [s'|] eqn:E; [|discriminate].
  intros H; injection H as <- <-; split; [reflexivity|].
  now apply exec_run in E.
Qed.

(** C10: every call of [likelihood_love] that a run of [invert] makes
    receives the reference, damping, posterior flag, threshold, order,
    highorder, boundaryorder and scale that [invert] received, and the
    frequency thinning 0.001; only the workspace and the model vary.
    Before the loop the state holds the result of the call on the empty
    workspace at the initial model; a turn of the inner loop makes no
    call; a pass leaves the result of the call at the proposal, or, when
    it backtracks, the result of a second call, on the workspace the first
    one left, at the restored model; after the return nothing is
    called. *)
#[warnings="-inexact-float"]
Theorem C10_likelihood_configuration a n :
  let call w M :=
    likelihood_love w M (reference a) (damping a) (posterior a) (threshold a)
      (order a) (highorder a) (boundaryorder a) (scale a) 0.001%float in
  let ws0 :=
    {| data := a_data a; mesh := a_mesh a; love := a_love a;
       dkdp := dmatrix_new; dUdp := dmatrix_new; dLdp := dmatrix_new;
       G := dmatrix_new; residuals := dmatrix_new; Cd := dmatrix_new |} in
  let s := run a n in
  let s' := run a (S n) in
  let M1 := copy_vector (model_v_proposed s) (model s) in
  let M2 := copy_vector (model_v s) M1 in
  let r1 := call (ws s) M1 in
  let r2 := call (snd r1) M2 in
  (like (run a 0), ws (run a 0)) = call ws0 (a_model a) /\
  (pc s = InnerLoop -> like s' = like s /\ ws s' = ws s) /\
  (pc s = AfterInner ->
     (dbl_gt (fst r1) (like s) = false ->
        like s' = fst r1 /\ ws s' = snd r1 /\ model s' = M1) /\
     (dbl_gt (fst r1) (like s) = true ->
      dbl_lt (eps_get (m s) (epsilon s)) EPSILON_MIN = true ->
        like s' = fst r1 /\ ws s' = snd r1 /\ model s' = M1) /\
     (dbl_gt (fst r1) (like s) = true ->
      dbl_lt (eps_get (m s) (epsilon s)) EPSILON_MIN = false ->
        like s' = fst r2 /\ ws s' = snd r2 /\ model s' = M2)) /\
  (pc s = Returned -> s' = s).
Proof.
  cbn zeta; split; [|split; [|split]].
  - cbn [run]; rewrite invert_init_fields; cbn zeta; cbn [like ws].
    unfold lik, frequency_thin; symmetry; apply surjective_pairing.
  - intros P; cbn [run]; unfold step_driver; rewrite P, attempt_fields.
    cbn; auto.
  - intros P; cbn [run]; unfold step_driver; rewrite P.
    unfold evaluate, frequency_thin; cbn zeta.
    destruct (likelihood_love (ws (run a n)) _ _ _ _ _ _ _ _ _ _)
      as [l1 w1]; cbn [fst snd].
    split; [|split].
    + intros G; rewrite G.
      match goal with |- context [loop_test a ?r] =>
        destruct (loop_test_fields a r) as (Hw & Hm & _ & _ & _ & _ & _ & _ & Hl & _)
      end.
      rewrite Hw, Hm, Hl; cbn; auto.
    + intros G F; rewrite G, F; cbn; auto.
    + intros G F; rewrite G, F.
      destruct (likelihood_love w1 _ _ _ _ _ _ _ _ _ _) as [l2 w2];
        cbn [fst snd].
      match goal with |- context [loop_test a ?r] =>
        destruct (loop_test_fields a r) as (Hw & Hm & _ & _ & _ & _ & _ & _ & Hl & _)
      end.
      rewrite Hw, Hm, Hl; cbn; auto.
  - intros P; cbn [run]; now apply step_driver_returned.
Qed.

End PassClaims.

(** ** The claims about the frame of the inner loop and about the strategies *)

Section FrameClaims.
Context {T : Types} {X : Externals}.
Implicit Types (a : args) (s : state).

(** C5, amended: a turn of the validate-retry loop (lines 508-529) leaves
    the model, the likelihood workspace, the prior vector, the covariance,
    both misfits, the counter and the other strategy's step size as they
    were; it rewrites the snapshot [model_v] and [model_mask] from the
    unchanged model, and [model_v_proposed]; it halves [epsilon[m]] exactly
    when [validate] rejects the proposal.  All along a run the model is
    written only after [validate] returned true. *)
Theorem C5_rejected_proposal_frame a n :
  let s := run a n in
  let s' := run a (S n) in
  (pc s = InnerLoop ->
     model s' = model s /\ ws s' = ws s /\ model_0 s' = model_0 s /\
     Cm s' = Cm s /\ like s' = like s /\ last_like s' = last_like s /\
     iterations s' = iterations s /\ m s' = m s /\
     (forall i, (i =? 0) <> (m s =? 0) ->
        eps_get i (epsilon s') = eps_get i (epsilon s)) /\
     (model_v s', model_mask s') =
       copy_model (model s) (model_v s) (model_mask s) /\
     (valid s' = false ->
        pc s' = InnerLoop /\
        eps_get (m s) (epsilon s') = halve (eps_get (m s) (epsilon s))) /\
     (valid s' = true -> pc s' = AfterInner /\ epsilon s' = epsilon s)) /\
  (model s' <> model s -> pc s = AfterInner /\ valid s = true).
Proof.
  cbn zeta; cbn [run]; set (s := run a n); split.
  - intros Hpc; unfold step_driver; rewrite Hpc, attempt_fields; cbn.
    destruct (copy_model _ _ _) as [v mk] eqn:C; cbn [fst snd].
    destruct (validate _ _ _ _) eqn:V; repeat split; try discriminate.
    + intros i Hi; now apply eps_get_set_other.
    + apply eps_get_set_same.
  - intros Hm; destruct (pc s) eqn:Hpc.
    + exfalso; apply Hm; unfold step_driver; rewrite Hpc, attempt_fields;
        reflexivity.
    + split; [reflexivity | now apply (valid_after_inner a n)].
    + exfalso; apply Hm; now rewrite step_driver_returned.
Qed.

Lemma attempt_with_steps it0 it1 s :
  same_proposal it0 SimpleStep -> same_proposal it1 QuasiNewton ->
  @attempt T (with_steps X it0 it1) s = @attempt T X s.
Proof.
  intros H0 H1.
  rewrite (@attempt_fields T (with_steps X it0 it1)), (@attempt_fields T X).
  cbn zeta.
  match goal with
  | |- context [snd (@ComputeStep T ?it ?e ?cd ?cm ?r ?g ?dl ?mk ?v ?v0 ?vp)] =>
      assert (E : snd (@ComputeStep T it e cd cm r g dl mk v v0 vp) =
                  snd (ComputeStep (@step T X (m s)) e cd cm r g dl mk v v0 vp))
        by (unfold step; cbn; destruct (m s =? 0); [apply H0 | apply H1]);
      rewrite E
  end.
  reflexivity.
Qed.

(** C7: the boolean that [ComputeStep] returns has no effect on [invert].
    Replace both strategies by ones that fill the proposed vector in the
    same way and return any boolean: every state of the run, the log
    included, is the same, and so is the result; prior validation and the
    use of the proposal follow a false exactly as they follow a true. *)
Theorem C7_ComputeStep_result_unused it0 it1 a :
  same_proposal it0 SimpleStep -> same_proposal it1 QuasiNewton ->
  (forall n, @run T (with_steps X it0 it1) a n = @run T X a n) /\
  (forall fuel, @invert T (with_steps X it0 it1) fuel a = @invert T X fuel a).
Proof.
  intros H0 H1.
  assert (S : forall s, @step_driver T (with_steps X it0 it1) a s
                        = @step_driver T X a s).
  { intros s; unfold step_driver; destruct (pc s); [|reflexivity|reflexivity].
    now apply attempt_with_steps. }
  assert (R : forall n, @run T (with_steps X it0 it1) a n = @run T X a n).
  { induction n as [|n IH]; [reflexivity|]; cbn [run]; now rewrite IH, S. }
  split; [exact R|].
  intros fuel; unfold invert.
  change (@invert_init T (with_steps X it0 it1) a) with (@invert_init T X a).
  generalize (@invert_init T X a).
  induction fuel as [|f IH]; intros s; cbn [exec]; [reflexivity|].
  destruct (pc s); try reflexivity; rewrite S; apply IH.
Qed.

(** The [mode] argument is never read. *)
Lemma mode_ignored a md n : run (set_mode md a) n = run a n.
Proof.
  induction n as [|n IH]; [reflexivity|].
  cbn [run]; rewrite IH; reflexivity.
Qed.

(** Inside a pass [m] is the parity of the counter. *)
Lemma m_is_parity a n :
  pc (run a n) <> Returned ->
  m (run a n) = int_rem (iterations (run a n)) 2.
Proof.
  apply (run_invariant a
           (fun s => pc s <> Returned -> m s = int_rem (iterations s) 2)).
  - rewrite invert_init_fields; reflexivity.
  - intros s IH; unfold step_driver; destruct (pc s) eqn:E.
    + rewrite attempt_fields; cbn; intros _; apply IH; discriminate.
    + destruct (pass_cases a s) as [(H & _) | [(_ & H & _) | (_ & _ & H)]].
      * rewrite (evaluate_accept a s H); cbn zeta; intros Hp.
        match goal with |- context [loop_test a ?r] =>
          destruct (loop_test_fields a r) as (_&_&_&_&_&_&_&_&_&_&Hi&_);
          pose proof (loop_test_pc a r) as P;
          pose proof (loop_test_m a r) as M end.
        rewrite Hi; destruct (_ <? _); [now apply M | congruence].
      * rewrite (evaluate_backtrack a s H); cbn zeta; intros Hp.
        match goal with |- context [loop_test a ?r] =>
          destruct (loop_test_fields a r) as (_&_&_&_&_&_&_&_&_&_&Hi&_);
          pose proof (loop_test_pc a r) as P;
          pose proof (loop_test_m a r) as M end.
        rewrite Hi; destruct (_ <? _); [now apply M | congruence].
      * rewrite (evaluate_exit a s H); cbn; congruence.
    + congruence.
Qed.

End FrameClaims.

(** ** The step sizes along a run *)

Section Epsilon.
Context {T : Types} {X : Externals}.
Implicit Types (a : args) (s : state).

Lemma eps_get_index i j e : (i =? 0) = (j =? 0) -> eps_get i e = eps_get j e.
Proof. unfold eps_get; now intros ->. Qed.

Lemma eps_get_set i j v e :
  eps_get i (eps_set j v e) = if Bool.eqb (i =? 0) (j =? 0) then v else eps_get i e.
Proof.
  unfold eps_get, eps_set; destruct (i =? 0) eqn:E, (j =? 0) eqn:F; cbn;
    now rewrite ?E.
Qed.

(** A transition leaves a step size alone or halves it; it halves the one
    of the active strategy only, after a rejected proposal or on a
    backtrack. *)
Lemma step_epsilon a s i :
  let s' := step_driver a s in
  eps_get i (epsilon s') = eps_get i (epsilon s) \/
  (eps_get i (epsilon s') = halve (eps_get i (epsilon s)) /\
   (i =? 0) = (m s =? 0) /\
   ((pc s = InnerLoop /\ valid s' = false) \/
    (pc s = AfterInner /\ backtracks a s = true))).
Proof.
  cbn zeta; unfold step_driver; destruct (pc s) eqn:Hpc.
  - rewrite attempt_fields; cbn.
    destruct (validate _ _ _ _); [now left|].
    rewrite eps_get_set.
    destruct (Bool.eqb (i =? 0) (m s =? 0)) eqn:E; [|now left].
    apply Bool.eqb_prop in E; right.
    rewrite (eps_get_index i (m s) _ E); auto.
  - destruct (pass_cases a s) as [(H & _) | [(_ & H & _) | (_ & _ & H)]].
    + rewrite (evaluate_accept a s H); cbn zeta.
      match goal with |- context [loop_test a ?r] =>
        destruct (loop_test_fields a r) as (_&_&_&_&_&_&_&He&_) end.
      rewrite He; now left.
    + rewrite (evaluate_backtrack a s H); cbn zeta.
      match goal with |- context [loop_test a ?r] =>
        destruct (loop_test_fields a r) as (_&_&_&_&_&_&_&He&_) end.
      rewrite He; cbn; rewrite eps_get_set.
      destruct (Bool.eqb (i =? 0) (m s =? 0)) eqn:E; [|now left].
      apply Bool.eqb_prop in E; right.
      rewrite (eps_get_index i (m s) _ E); auto.
    + rewrite (evaluate_exit a s H); now left.
  - now left.
Qed.

(** Both step sizes are the user's one, halved some number of times. *)
Lemma epsilon_halved a n :
  exists k0 k1,
    epsilon (run a n) = (halve_n k0 (_epsilon a), halve_n k1 (_epsilon a)).
Proof.
  apply (run_invariant a (fun s => exists k0 k1,
           epsilon s = (halve_n k0 (_epsilon a), halve_n k1 (_epsilon a)))).
  - rewrite invert_init_fields; exists O, O; reflexivity.
  - intros s (k0 & k1 & E).
    destruct (step_epsilon a s 0) as [H0 | (H0 & _)];
      destruct (step_epsilon a s 1) as [H1 | (H1 & _)];
      unfold eps_get in H0, H1; cbn in H0, H1; rewrite E in H0, H1;
      cbn in H0, H1;
      [exists k0, k1 | exists k0, (S k1) | exists (S k0), k1
       | exists (S k0), (S k1)];
      rewrite (surjective_pairing (epsilon (step_driver a s))), H0, H1;
      reflexivity.
Qed.

Lemma epsilon_nonneg a n i :
  dbl_le 0 (_epsilon a) = true ->
  dbl_le 0 (eps_get i (epsilon (run a n))) = true.
Proof.
  intros H.
  assert (K : forall k, dbl_le 0 (halve_n k (_epsilon a)) = true).
  { induction k; cbn [halve_n]; [exact H | now apply halve_nonneg]. }
  destruct (epsilon_halved a n) as (k0 & k1 & ->).
  unfold eps_get; destruct (i =? 0); apply K.
Qed.

Lemma epsilon_not_neg a n i :
  dbl_lt (_epsilon a) 0 = false ->
  dbl_lt (eps_get i (epsilon (run a n))) 0 = false.
Proof.
  intros H.
  assert (K : forall k, dbl_lt (halve_n k (_epsilon a)) 0 = false).
  { induction k; cbn [halve_n]; [exact H | now apply halve_not_neg]. }
  destruct (epsilon_halved a n) as (k0 & k1 & ->).
  unfold eps_get; destruct (i =? 0); apply K.
Qed.

(** C4: for each strategy index, the step size starts as the epsilon that
    [invert] received, and every transition of the run either leaves it as
    it is or multiplies it by 0.5, the latter for the active strategy after
    a proposal that [validate] rejected or on a backtrack.  For a user
    epsilon that is not negative (main refuses [epsilon <= 0]) the values
    along the run never increase: the next one is never greater than the
    one before, and it is less or equal as soon as the user epsilon is a
    number. *)
Theorem C4_epsilon_never_increases a n i :
  dbl_lt (_epsilon a) 0 = false ->
  let s := run a n in
  let s' := run a (S n) in
  eps_get i (epsilon (run a 0)) = _epsilon a /\
  (eps_get i (epsilon s') = eps_get i (epsilon s) \/
   (eps_get i (epsilon s') = halve (eps_get i (epsilon s)) /\
    (i =? 0) = (m s =? 0) /\
    ((pc s = InnerLoop /\ valid s' = false) \/
     (pc s = AfterInner /\ backtracks a s = true)))) /\
  dbl_gt (eps_get i (epsilon s')) (eps_get i (epsilon s)) = false /\
  (PrimFloat.is_nan (_epsilon a) = false ->
   dbl_le (eps_get i (epsilon s')) (eps_get i (epsilon s)) = true).
Proof.
  intros Hpos; cbn zeta.
  pose proof (epsilon_not_neg a n i Hpos) as Hn.
  pose proof (step_epsilon a (run a n) i) as Hs; cbn zeta in Hs.
  change (step_driver a (run a n)) with (run a (S n)) in Hs.
  split; [|split; [exact Hs|split]].
  - cbn [run]; rewrite invert_init_fields; unfold eps_get; cbn.
    now destruct (i =? 0).
  - destruct Hs as [-> | (-> & _)].
    + apply dbl_gt_irrefl.
    + now apply halve_not_gt.
  - intros Hnum.
    assert (Z0 : dbl_le 0 (_epsilon a) = true)
      by (apply dbl_not_gt_le; [reflexivity | exact Hnum | exact Hpos]).
    pose proof (epsilon_nonneg a n i Z0) as Hn'.
    destruct Hs as [-> | (-> & _)].
    + now apply dbl_le_refl.
    + now apply halve_le.
Qed.

End Epsilon.

(** ** The accepted misfits along a run *)

Section Misfits.
Context {T : Types} {X : Externals}.
Implicit Types (a : args) (s : state).

Lemma new_events_app s s' l : out s' = l ++ out s -> new_events s s' = l.
Proof.
  unfold new_events; intros ->; rewrite List.length_app.
  replace (List.length l + List.length (out s) - List.length (out s))%nat
    with (List.length l) by lia.
  rewrite firstn_app, firstn_all, Nat.sub_diag; cbn; now rewrite app_nil_r.
Qed.

(** What a pass prints, in each of its three cases. *)
Lemma evaluate_new_events a s :
  new_events s (evaluate a s) =
  if accepts a s then
    [printf_progress (iterations s) (evaluated a s) (eps_get (m s) (epsilon s));
     lik_event a]
  else if backtracks a s then
    [lik_event a; printf_Backtracking (iterations s); lik_event a]
  else
    [printf_Exiting (iterations s); lik_event a].
Proof.
  apply new_events_app.
  destruct (pass_cases a s) as [(H & _) | [(-> & H & _) | (-> & -> & H)]].
  - rewrite H, (evaluate_accept a s H); cbn zeta.
    match goal with |- context [loop_test a ?r] =>
      destruct (loop_test_fields a r) as (_&_&_&_&_&_&_&_&_&_&_&Ho) end.
    rewrite Ho; reflexivity.
  - rewrite H, (evaluate_backtrack a s H); cbn zeta.
    match goal with |- context [loop_test a ?r] =>
      destruct (loop_test_fields a r) as (_&_&_&_&_&_&_&_&_&_&_&Ho) end.
    rewrite Ho; reflexivity.
  - rewrite (evaluate_exit a s H); reflexivity.
Qed.

Lemma not_above_intro x y : dbl_gt x y = false -> not_above x y.
Proof. intros H; split; [exact H|]; intros; now apply dbl_not_gt_le. Qed.

Lemma between_passes_run a misfit n :
  pure_likelihood a misfit -> copy_restores ->
  between_passes a misfit (run a n).
Proof.
  intros [P1 P2] R; apply run_invariant.
  - rewrite invert_init_fields; cbn zeta; unfold between_passes; cbn.
    split; [|split; [|discriminate]].
    + destruct (save_predictions _ _); cbn; exact I.
    + intros _; split.
      * destruct (save_predictions _ _); reflexivity.
      * now rewrite P1, P2.
  - intros s (D & L & V); unfold step_driver; destruct (pc s) eqn:Hpc.
    + rewrite attempt_fields; unfold between_passes; cbn.
      split; [exact D|]; split.
      * intros _; apply L; discriminate.
      * intros _; eexists _, _; reflexivity.
    + destruct L as (Lh & Lm); [discriminate|].
      destruct (V eq_refl) as (v & mk & Hv).
      destruct (pass_cases a s) as [(H & _) | [(_ & H & _) | (_ & _ & H)]].
      * rewrite (evaluate_accept a s H); cbn zeta.
        match goal with |- context [loop_test a ?r] =>
          destruct (loop_test_fields a r)
            as (Hw&Hmo&_&_&_&_&_&_&Hl&_&_&Ho);
          pose proof (loop_test_pc a r) as Hp end.
        unfold between_passes; rewrite Hw, Hmo, Hl, Ho, Hp; cbn.
        split; [|split].
        -- destruct (accepted_misfits (out s)) as [|y l] eqn:A;
             [exact I|]; cbn in Lh; injection Lh as ->; split; [|exact D].
           apply not_above_intro; unfold accepts in H.
           now apply negb_true_iff in H.
        -- intros _; split; [reflexivity | now rewrite P1, P2].
        -- destruct (_ <? _); discriminate.
      * rewrite (evaluate_backtrack a s H); cbn zeta.
        match goal with |- context [loop_test a ?r] =>
          destruct (loop_test_fields a r)
            as (Hw&Hmo&_&_&_&_&_&_&Hl&_&_&Ho);
          pose proof (loop_test_pc a r) as Hp end.
        unfold between_passes; rewrite Hw, Hmo, Hl, Ho, Hp; cbn.
        rewrite Hv, R.
        split; [exact D|]; split.
        -- intros _; rewrite !P1, !P2; split; [now rewrite Lh, Lm | reflexivity].
        -- destruct (_ <? _); discriminate.
      * rewrite (evaluate_exit a s H); unfold between_passes; cbn.
        split; [exact D|]; split; [congruence | discriminate].
    + split; [exact D|]; split; congruence.
Qed.

(** C2, amended: with a likelihood that is a pure function of data and
    model, and [copy] restoring the snapshot, no misfit that a run prints as
    accepted is above the one accepted before it, so the accepted misfits
    are non-increasing as long as none is NaN: at the end of the inner loop
    [like] is the last accepted misfit, a pass accepts exactly when the
    misfit it evaluates is not greater than it (which is
    [like <= last_like] unless one of them is NaN), it backtracks exactly
    when the misfit is greater and [epsilon[m]] is not below [EPSILON_MIN],
    and with [epsilon[m]] below [EPSILON_MIN] it leaves the loop instead; a
    backtrack brings the model and [like] back to the last accepted ones. *)
Theorem C2_accepted_misfit_not_above_previous a misfit n :
  pure_likelihood a misfit -> copy_restores ->
  let s := run a n in
  let s' := run a (S n) in
  let eps := eps_get (m s) (epsilon s) in
  descending (accepted_misfits (out s)) /\
  (pc s = AfterInner ->
     hd_error (accepted_misfits (out s)) = Some (like s) /\
     (In (printf_progress (iterations s) (evaluated a s) eps) (new_events s s')
      <-> dbl_gt (evaluated a s) (like s) = false) /\
     (In (printf_Backtracking (iterations s)) (new_events s s')
      <-> dbl_gt (evaluated a s) (like s) = true /\
          dbl_lt eps EPSILON_MIN = false) /\
     (In (printf_Exiting (iterations s)) (new_events s s')
      <-> dbl_gt (evaluated a s) (like s) = true /\
          dbl_lt eps EPSILON_MIN = true) /\
     (dbl_gt (evaluated a s) (like s) = false ->
        iterations s' = int_incr (iterations s) /\
        like s' = evaluated a s /\ last_like s' = like s /\
        not_above (like s') (last_like s')) /\
     (backtracks a s = true ->
        iterations s' = iterations s /\
        like s' = like s /\ model s' = model s)).
Proof.
  intros P R; cbn zeta.
  destruct (between_passes_run a misfit n P R) as (D & L & V).
  split; [exact D|]; intros Hpc.
  destruct L as (Lh & Lm); [congruence|].
  destruct (V Hpc) as (v & mk & Hv).
  assert (E : run a (S n) = evaluate a (run a n))
    by (cbn [run]; unfold step_driver; now rewrite Hpc).
  rewrite E in *; set (s := run a n) in *.
  split; [exact Lh|].
  rewrite evaluate_new_events; unfold accepts, backtracks.
  split; [|split; [|split; [|split]]].
  - destruct (dbl_gt _ _), (dbl_lt _ _); cbn; unfold lik_event;
      intuition (discriminate || congruence).
  - destruct (dbl_gt _ _), (dbl_lt _ _); cbn; unfold lik_event;
      intuition (discriminate || congruence).
  - destruct (dbl_gt _ _), (dbl_lt _ _); cbn; unfold lik_event;
      intuition (discriminate || congruence).
  - intros H.
    assert (A : accepts a s = true) by (unfold accepts; now rewrite H).
    rewrite (evaluate_accept a s A); cbn zeta.
    match goal with |- context [loop_test a ?r] =>
      destruct (loop_test_fields a r) as (_&_&_&_&_&_&_&_&Hl&Hll&Hi&_) end.
    rewrite Hl, Hll, Hi; cbn.
    split; [reflexivity|]; split; [reflexivity|]; split; [reflexivity|].
    apply not_above_intro; exact H.
  - intros B.
    rewrite (evaluate_backtrack a s B); cbn zeta.
    match goal with |- context [loop_test a ?r] =>
      destruct (loop_test_fields a r) as (_&Hmo&_&_&_&_&_&_&Hl&_&Hi&_) end.
    rewrite Hmo, Hl, Hi; cbn.
    destruct P as [P1 P2].
    rewrite Hv, R, P1, P2; repeat split; now rewrite Lm.
Qed.

End Misfits.

(** ** Termination *)

Section Termination.
Context {T : Types} {X : Externals}.
Variable a : args.
Implicit Types (s : state).

Lemma int_incr_small i : 0 <= i < INT_MAX -> int_incr i = i + 1.
Proof.
  unfold int_incr, int_wrap, INT_MAX; intros H.
  rewrite Z.mod_small by lia; lia.
Qed.

Ltac counter_solve :=
  split; [lia|]; split; [intros ?; try congruence; try lia|];
  split; [lia|]; intros ?; try discriminate; try (left; lia).

Lemma counter_ok_run n : maxiterations a <= INT_MAX -> counter_ok a (run a n).
Proof.
  intros Hmax; apply run_invariant.
  - rewrite invert_init_fields; unfold counter_ok; cbn.
    split; [lia|]; split; [lia|]; split; [|discriminate].
    destruct (save_predictions _ _); reflexivity.
  - intros s (B & L & C & E); unfold step_driver; destruct (pc s) eqn:Hpc.
    + rewrite attempt_fields; unfold counter_ok; cbn.
      split; [lia|]; split; [intros _; apply L; discriminate|].
      split; [exact C|]; destruct (validate _ _ _ _); discriminate.
    + specialize (L ltac:(discriminate)).
      destruct (pass_cases a s) as [(H & _) | [(_ & H & _) | (_ & _ & H)]].
      * rewrite (evaluate_accept a s H); cbn zeta.
        match goal with |- context [loop_test a ?r] =>
          destruct (loop_test_fields a r) as (_&_&_&_&_&_&_&_&_&_&Hi&Ho);
          pose proof (loop_test_pc a r) as Hp end.
        unfold counter_ok; rewrite Hi, Ho, Hp; cbn -[Z.add].
        rewrite int_incr_small by (unfold INT_MAX in *; lia).
        destruct (Z.ltb_spec (iterations s + 1) (maxiterations a));
          counter_solve.
      * rewrite (evaluate_backtrack a s H); cbn zeta.
        match goal with |- context [loop_test a ?r] =>
          destruct (loop_test_fields a r) as (_&_&_&_&_&_&_&_&_&_&Hi&Ho);
          pose proof (loop_test_pc a r) as Hp end.
        unfold counter_ok; rewrite Hi, Ho, Hp; cbn.
        destruct (Z.ltb_spec (iterations s) (maxiterations a));
          counter_solve.
      * rewrite (evaluate_exit a s H); unfold counter_ok; cbn.
        split; [lia|]; split; [congruence|]; split; [exact C|].
        intros _; right; eexists; reflexivity.
    + split; [lia|]; split; [congruence|]; split; [exact C|].
      intros _; now apply E.
Qed.

Lemma halved_step s i k :
  halved_at_least a k (eps_get i (epsilon s)) ->
  halved_at_least a k (eps_get i (epsilon (step_driver a s))).
Proof.
  intros (k' & Hk & E).
  destruct (step_epsilon a s i) as [-> | (-> & _)].
  - now exists k'.
  - exists (S k'); split; [lia|]; cbn [halve_n]; now rewrite E.
Qed.

Lemma halved_run n j i k :
  halved_at_least a k (eps_get i (epsilon (run a n))) ->
  halved_at_least a k (eps_get i (epsilon (run a (n + j)))).
Proof.
  intros H; induction j as [|j IH]; [now rewrite Nat.add_0_r|].
  rewrite Nat.add_succ_r; cbn [run]; now apply halved_step.
Qed.

(** The inner loop, once it is known to end, ends after the inner loop
    with the counter it started with. *)
Lemma inner_loop_ends : forall k n,
  pc (run a n) = InnerLoop -> pc (run a (n + k)) <> InnerLoop ->
  exists j, pc (run a (n + j)) = AfterInner /\
            iterations (run a (n + j)) = iterations (run a n).
Proof.
  induction k as [|k IH]; intros n Hn Hk.
  - rewrite Nat.add_0_r in Hk; contradiction.
  - assert (E : run a (S n) = attempt (run a n))
      by (cbn [run]; unfold step_driver; now rewrite Hn).
    assert (I : iterations (run a (S n)) = iterations (run a n))
      by (rewrite E, attempt_fields; reflexivity).
    destruct (pc (run a (S n))) eqn:P.
    + destruct (IH (S n) P) as (j & Hj & Hi).
      * now rewrite Nat.add_succ_r in Hk.
      * exists (S j); rewrite Nat.add_succ_r.
        change (S (n + j))%nat with (S n + j)%nat.
        split; [exact Hj | now rewrite Hi].
    + exists 1%nat; rewrite Nat.add_1_r; auto.
    + exfalso; revert P; rewrite E, attempt_fields; cbn.
      destruct (validate _ _ _ _); discriminate.
Qed.

Section WithFloor.
Variable N : nat.
Hypothesis floor_reached :
  forall k, (N <= k)%nat ->
    dbl_lt (halve_n k (_epsilon a)) EPSILON_MIN = true.
Hypothesis retry_ends :
  forall n, pc (run a n) = InnerLoop ->
    exists k, pc (run a (n + k)) <> InnerLoop.
Hypothesis maxiterations_int : maxiterations a <= INT_MAX.

(** A backtrack halves a step size that was not yet halved [N] times. *)
Lemma halved_backtrack s k :
  backtracks a s = true ->
  halved_at_least a k (eps_get (m s) (epsilon s)) ->
  (k < N)%nat /\
  halved_at_least a (S k) (eps_get (m s) (epsilon (evaluate a s))).
Proof.
  intros B (k' & Hk & E).
  assert (F : dbl_lt (eps_get (m s) (epsilon s)) EPSILON_MIN = false).
  { unfold backtracks in B; apply andb_prop in B; destruct B as [_ B].
    now apply negb_true_iff in B. }
  assert (k' < N)%nat.
  { destruct (Nat.lt_ge_cases k' N) as [L|L]; [exact L|].
    rewrite E, (floor_reached k' L) in F; discriminate. }
  split; [lia|].
  rewrite (evaluate_backtrack a s B); cbn zeta.
  match goal with |- context [loop_test a ?r] =>
    destruct (loop_test_fields a r) as (_&_&_&_&_&_&_&He&_) end.
  rewrite He; cbn; rewrite eps_get_set_same.
  exists (S k'); split; [lia|]; cbn [halve_n]; now rewrite E.
Qed.

(** From any point of the run, [Returned] is reached: by induction on the
    accepted passes that remain and the halvings that remain before the
    floor. *)
Lemma returns_from : forall d n k0 k1,
  pc (run a n) <> Returned ->
  halved_at_least a k0 (eps_get 0 (epsilon (run a n))) ->
  halved_at_least a k1 (eps_get 1 (epsilon (run a n))) ->
  (Z.to_nat (Z.max 1 (maxiterations a) - iterations (run a n))
   + (N - k0) + (N - k1) <= d)%nat ->
  exists n', pc (run a n') = Returned.
Proof.
  induction d as [|d IH]; intros n k0 k1 Hp H0 H1 Hd.
  - destruct (counter_ok_run n maxiterations_int) as (_ & L & _).
    specialize (L Hp); lia.
  - (* reach the end of the inner loop *)
    assert (A : exists n',
               pc (run a n') = AfterInner /\
               iterations (run a n') = iterations (run a n) /\
               halved_at_least a k0 (eps_get 0 (epsilon (run a n'))) /\
               halved_at_least a k1 (eps_get 1 (epsilon (run a n')))).
    { destruct (pc (run a n)) eqn:P; [| |congruence].
      - destruct (retry_ends n P) as (k & Hk).
        destruct (inner_loop_ends k n P Hk) as (j & Hj & Hi).
        exists (n + j)%nat; repeat split; auto using halved_run.
      - exists n; auto. }
    destruct A as (n' & P & I & K0 & K1).
    set (s := run a n') in *.
    assert (E : run a (S n') = evaluate a s)
      by (cbn [run]; fold s; unfold step_driver; now rewrite P).
    destruct (counter_ok_run n' maxiterations_int) as (B & L & _).
    fold s in B, L; specialize (L ltac:(congruence)).
    destruct (pc (run a (S n'))) eqn:P'; [| |now exists (S n')].
    + (* the loop goes on *)
      destruct (pass_cases a s) as [(H & _) | [(_ & H & _) | (_ & _ & H)]].
      * (* accepted: one pass less remains *)
        apply (IH (S n') k0 k1); [congruence| | |].
        -- cbn [run]; now apply halved_step.
        -- cbn [run]; now apply halved_step.
        -- rewrite E, (evaluate_accept a s H); cbn zeta.
           match goal with |- context [loop_test a ?r] =>
             destruct (loop_test_fields a r) as (_&_&_&_&_&_&_&_&_&_&Hi&_) end.
           rewrite Hi; cbn.
           rewrite int_incr_small by (unfold INT_MAX in *; lia).
           rewrite <- I in Hd; lia.
      * (* backtracked: one halving less remains *)
        assert (M : m s = int_rem (iterations s) 2)
          by (apply m_is_parity; fold s; congruence).
        assert (Hi : iterations (run a (S n')) = iterations s).
        { rewrite E, (evaluate_backtrack a s H); cbn zeta.
          match goal with |- context [loop_test a ?r] =>
            destruct (loop_test_fields a r) as (_&_&_&_&_&_&_&_&_&_&Hi&_) end.
          now rewrite Hi. }
        destruct (m s =? 0) eqn:Hm.
        -- rewrite (eps_get_index 0 (m s)) in K0 by now rewrite Hm.
           destruct (halved_backtrack s k0 H K0) as (Lt & K0').
           apply (IH (S n') (S k0) k1); [congruence| | |].
           ++ rewrite E, (eps_get_index 0 (m s)) by now rewrite Hm.
              exact K0'.
           ++ cbn [run]; now apply halved_step.
           ++ rewrite Hi; rewrite <- I in Hd; lia.
        -- rewrite (eps_get_index 1 (m s)) in K1 by now rewrite Hm.
           destruct (halved_backtrack s k1 H K1) as (Lt & K1').
           apply (IH (S n') k0 (S k1)); [congruence| | |].
           ++ cbn [run]; now apply halved_step.
           ++ rewrite E, (eps_get_index 1 (m s)) by now rewrite Hm.
              exact K1'.
           ++ rewrite Hi; rewrite <- I in Hd; lia.
      * rewrite E, (evaluate_exit a s H) in P'; discriminate.
    + (* after a pass control is never after the inner loop *)
      exfalso; revert P'; rewrite E.
      destruct (pass_cases a s) as [(H & _) | [(_ & H & _) | (_ & _ & H)]].
      * rewrite (evaluate_accept a s H), loop_test_pc.
        destruct (_ <? _); discriminate.
      * rewrite (evaluate_backtrack a s H), loop_test_pc.
        destruct (_ <? _); discriminate.
      * rewrite (evaluate_exit a s H); discriminate.
Qed.

Lemma returns : exists n, pc (run a n) = Returned.
Proof.
  apply (returns_from
           (Z.to_nat (Z.max 1 (maxiterations a) - iterations (run a 0))
            + (N - 0) + (N - 0)) 0%nat 0%nat 0%nat).
  - cbn [run]; rewrite invert_init_fields; discriminate.
  - exists 0%nat; split; [lia|].
    cbn [run]; rewrite invert_init_fields; reflexivity.
  - exists 0%nat; split; [lia|].
    cbn [run]; rewrite invert_init_fields; reflexivity.
  - lia.
Qed.

End WithFloor.

(** When a pass ends the loop. *)
Lemma pass_returns n :
  pc (run a n) = AfterInner ->
  (pc (run a (S n)) = Returned <->
   exits a (run a n) = true \/
   maxiterations a <= iterations (run a (S n))).
Proof.
  intros P; set (s := run a n) in *.
  assert (E : run a (S n) = evaluate a s)
    by (cbn [run]; fold s; unfold step_driver; now rewrite P).
  rewrite E.
  destruct (pass_cases a s) as [(H & _ & F) | [(_ & H & F) | (_ & _ & H)]].
  - rewrite (evaluate_accept a s H); cbn zeta.
    match goal with |- context [loop_test a ?r] =>
      destruct (loop_test_fields a r) as (_&_&_&_&_&_&_&_&_&_&Hi&_);
      pose proof (loop_test_pc a r) as Hp end.
    rewrite Hi, Hp, F; cbn.
    destruct (Z.ltb_spec (int_incr (iterations s)) (maxiterations a));
      (split; intros K;
       [ first [discriminate K | right; lia]
       | first [reflexivity | destruct K as [K|K]; [discriminate | lia]] ]).
  - rewrite (evaluate_backtrack a s H); cbn zeta.
    match goal with |- context [loop_test a ?r] =>
      destruct (loop_test_fields a r) as (_&_&_&_&_&_&_&_&_&_&Hi&_);
      pose proof (loop_test_pc a r) as Hp end.
    rewrite Hi, Hp, F; cbn.
    destruct (Z.ltb_spec (iterations s) (maxiterations a));
      (split; intros K;
       [ first [discriminate K | right; lia]
       | first [reflexivity | destruct K as [K|K]; [discriminate | lia]] ]).
  - rewrite (evaluate_exit a s H), H; cbn; split; auto.
Qed.

End Termination.

(** ** The claims about the whole run *)

Section RunClaims.
Context {T : Types} {X : Externals}.

(** C3, amended: the loop ends when the counter reaches [maxiterations],
    and it ends early when a pass evaluates a worse misfit while the step
    size of the active strategy is below [EPSILON_MIN]; a step size below
    the floor does not end it by itself.  With a finite positive user
    epsilon, a positive floor and an inner loop that always comes to a
    valid proposal, [invert] returns true, after at most
    [max 1 maxiterations] accepted passes, at the bound or on the floor. *)
Theorem C3_invert_terminates a :
  (forall n, pc (run a n) = InnerLoop ->
     exists k, pc (run a (n + k)) <> InnerLoop) ->
  dbl_lt 0 (_epsilon a) = true ->
  dbl_lt (_epsilon a) infinity = true ->
  dbl_lt 0 EPSILON_MIN = true ->
  maxiterations a <= INT_MAX ->
  (exists n,
     pc (run a n) = Returned /\
     invert n a = Some (true, run a n) /\
     accepted_count (out (run a n)) = iterations (run a n) /\
     iterations (run a n) <= Z.max 1 (maxiterations a) /\
     (maxiterations a <= iterations (run a n) \/
      exists i, hd_error (out (run a n)) = Some (printf_Exiting i))) /\
  (forall n,
     pc (run a n) = AfterInner ->
     (pc (run a (S n)) = Returned <->
      exits a (run a n) = true \/
      maxiterations a <= iterations (run a (S n)))).
Proof.
  intros Hretry Hpos Hfin Hfloor Hmax; split; [|apply pass_returns].
  destruct (halve_n_below_floor (_epsilon a) EPSILON_MIN
              (dbl_lt_zero_le _ Hpos) Hfin Hfloor) as (N & HN).
  destruct (returns a N HN Hretry Hmax) as (n & Hn).
  destruct (counter_ok_run a n Hmax) as (B & _ & C & E).
  exists n; split; [exact Hn|]; split; [now apply invert_reaches|].
  split; [exact C|]; split; [lia | now apply E].
Qed.

(** C8: the strategy of a pass is [step[iterations % 2]], whatever [mode]
    is: no state of the run depends on [mode], inside a pass [m] is the
    parity of the counter, and a turn of the inner loop calls
    [ComputeStep] on [step[m]]: [SimpleStep] for an even counter,
    [QuasiNewton] for an odd one. *)
Theorem C8_strategy_by_parity_mode_unread a md n :
  let s := run a n in
  run (set_mode md a) n = s /\
  (pc s <> Returned -> m s = int_rem (iterations s) 2) /\
  (pc s = InnerLoop ->
     step (m s) = (if Z.even (iterations s) then SimpleStep else QuasiNewton) /\
     out (run a (S n)) =
       call_ComputeStep (int_rem (iterations s) 2)
         (eps_get (m s) (epsilon s)) :: out s).
Proof.
  cbn zeta; split; [apply mode_ignored|]; split; [apply m_is_parity|].
  intros P.
  assert (M : m (run a n) = int_rem (iterations (run a n)) 2)
    by (apply m_is_parity; congruence).
  split.
  - unfold step; rewrite M; unfold int_rem.
    now rewrite Zeven_rem.
  - cbn [run]; unfold step_driver; rewrite P, attempt_fields; cbn.
    now rewrite M.
Qed.

End RunClaims.

(** ** The claims on a concrete run

    The model starts at 9 with step size 1 and three iterations.  The
    simple strategy reaches 10, the minimum; from there the quasi-Newton
    strategy, after one proposal outside the prior, overshoots to 12: ten
    backtracks follow, each halving its step size, until the step size is
    under the floor and the loop is left. *)

Module LineRun.
Import Toy Line.

(** C1, on the first backtrack of the run. *)
Lemma C1_backtrack_on_worse_misfit_witness :
  let s := @run _ line a9 4 in
  pc s = AfterInner /\
  dbl_gt (@evaluated _ line a9 s) (like s) = true /\
  dbl_lt (eps_get (m s) (epsilon s)) (@EPSILON_MIN _ line) = false /\
  eps_get (m s) (epsilon (@step_driver _ line a9 s)) = 0.25%float /\
  model (@step_driver _ line a9 s) = 10 /\
  iterations (@step_driver _ line a9 s) = 1.
Proof.
  cbn zeta.
  assert (H1 : pc (@run _ line a9 4) = AfterInner) by (vm_compute; reflexivity).
  assert (H2 : dbl_gt (@evaluated _ line a9 (@run _ line a9 4))
                 (like (@run _ line a9 4)) = true)
    by (vm_compute; reflexivity).
  assert (H3 : dbl_lt (eps_get (m (@run _ line a9 4))
                         (epsilon (@run _ line a9 4)))
                 (@EPSILON_MIN _ line) = false)
    by (vm_compute; reflexivity).
  destruct (@C1_backtrack_on_worse_misfit _ line a9 (@run _ line a9 4) H1 H2 H3)
    as (E & M & _ & _ & I & _).
  split; [exact H1|]; split; [exact H2|]; split; [exact H3|].
  rewrite E, M, I; vm_compute; auto.
Defined.

(** C4, on the transition that rejects the proposal 100. *)
Lemma C4_epsilon_never_increases_witness :
  dbl_lt (_epsilon a9) 0 = false /\
  eps_get 1 (epsilon (@run _ line a9 3)) = 0.5%float /\
  eps_get 1 (epsilon (@run _ line a9 2)) = 1%float /\
  dbl_gt (eps_get 1 (epsilon (@run _ line a9 3)))
         (eps_get 1 (epsilon (@run _ line a9 2))) = false /\
  dbl_le (eps_get 1 (epsilon (@run _ line a9 3)))
         (eps_get 1 (epsilon (@run _ line a9 2))) = true.
Proof.
  assert (H : dbl_lt (_epsilon a9) 0 = false) by (vm_compute; reflexivity).
  destruct (@C4_epsilon_never_increases _ line a9 2%nat 1 H)
    as (_ & _ & G & L).
  split; [exact H|]; split; [vm_compute; reflexivity|].
  split; [vm_compute; reflexivity|]; split; [exact G|].
  apply L; vm_compute; reflexivity.
Defined.

(** C6, on the pass that leaves the loop: the model stays at the rejected
    proposal 12 although the last accepted model was 10. *)
Lemma C6_floor_exit_keeps_proposal_witness :
  pc (@run _ line a9 24) = AfterInner /\
  @exits _ line a9 (@run _ line a9 24) = true /\
  model (@run _ line a9 24) = 10 /\
  exists s', @invert _ line 40 a9 = Some (true, s') /\ model s' = 12.
Proof.
  assert (H1 : pc (@run _ line a9 24) = AfterInner) by (vm_compute; reflexivity).
  assert (H2 : @exits _ line a9 (@run _ line a9 24) = true)
    by (vm_compute; reflexivity).
  destruct (@C6_floor_exit_keeps_proposal _ line a9 24%nat H1 H2)
    as (_ & _ & _ & _ & F).
  split; [exact H1|]; split; [exact H2|]; split; [vm_compute; reflexivity|].
  destruct (F 40%nat) as (s' & Hs & Hm); [lia|].
  exists s'; split; [exact Hs | rewrite Hm; vm_compute; reflexivity].
Defined.

(** C9, on the same run: a rejected proposal, ten backtracks and the exit
    on the floor, and the result is true. *)
Lemma C9_invert_returns_true_witness :
  @invert _ line 40 a9 = Some (true, @run _ line a9 25) /\
  valid (@run _ line a9 3) = false /\
  In (printf_Backtracking 1) (out (@run _ line a9 25)) /\
  In (printf_Exiting 1) (out (@run _ line a9 25)) /\
  true = true.
Proof.
  assert (H : @invert _ line 40 a9 = Some (true, @run _ line a9 25))
    by (vm_compute; reflexivity).
  split; [exact H|]; split; [vm_compute; reflexivity|].
  split; [vm_compute; tauto|]; split; [vm_compute; tauto|].
  exact (proj1 (@C9_invert_returns_true _ line 40%nat a9 true _ H)).
Defined.

(** C7: the same run with strategies that return false. *)
Lemma C7_ComputeStep_result_unused_witness :
  same_proposal (toy_step false (fun _ v => v + 1)) (@SimpleStep _ line) /\
  same_proposal
    (toy_step false (fun eps v => if dbl_lt eps 1 then v + 2 else 100))
    (@QuasiNewton _ line) /\
  @invert _
    (with_steps line (toy_step false (fun _ v => v + 1))
       (toy_step false (fun eps v => if dbl_lt eps 1 then v + 2 else 100)))
    40 a9
  = @invert _ line 40 a9.
Proof.
  assert (H0 : same_proposal (toy_step false (fun _ v => v + 1))
                 (@SimpleStep _ line))
    by (intros ? ? ? ? ? ? ? ? ? ?; reflexivity).
  assert (H1 : same_proposal
                 (toy_step false
                    (fun eps v => if dbl_lt eps 1 then v + 2 else 100))
                 (@QuasiNewton _ line))
    by (intros ? ? ? ? ? ? ? ? ? ?; reflexivity).
  split; [exact H0|]; split; [exact H1|].
  exact (proj2 (@C7_ComputeStep_result_unused _ line _ _ a9 H0 H1) 40%nat).
Defined.

Lemma line_pure : @pure_likelihood _ line a9 (fun _ M => dist10 M).
Proof. split; intros; reflexivity. Qed.

Lemma line_restores : @copy_restores _ line.
Proof. intros M v mk p; reflexivity. Qed.

Lemma a9_returns k : @run _ line a9 (k + 25) = @run _ line a9 25.
Proof.
  rewrite Nat.add_comm; apply run_returned; vm_compute; reflexivity.
Qed.

(** C2, on the first backtrack of the run: the model and the misfit come
    back to the accepted 10 and 0. *)
Lemma C2_accepted_misfit_not_above_previous_witness :
  @pure_likelihood _ line a9 (fun _ M => dist10 M) /\
  @copy_restores _ line /\
  descending (accepted_misfits (out (@run _ line a9 4))) /\
  accepted_misfits (out (@run _ line a9 4)) = [0%float; 1%float] /\
  @backtracks _ line a9 (@run _ line a9 4) = true /\
  like (@run _ line a9 5) = like (@run _ line a9 4) /\
  model (@run _ line a9 5) = model (@run _ line a9 4).
Proof.
  split; [exact line_pure|]; split; [exact line_restores|].
  destruct (@C2_accepted_misfit_not_above_previous _ line a9 _ 4%nat
              line_pure line_restores) as (D & H).
  split; [exact D|]; split; [vm_compute; reflexivity|].
  assert (B : @backtracks _ line a9 (@run _ line a9 4) = true)
    by (vm_compute; reflexivity).
  split; [exact B|].
  destruct H as (_ & _ & _ & _ & _ & R); [vm_compute; reflexivity|].
  destruct (R B) as (_ & L & M); split; [exact L | exact M].
Defined.

(** C2 as stated fails.  On the run above the last pass evaluates the
    misfit 2, greater than the accepted 0, and with a step size under the
    floor it leaves the loop: there is no backtrack.  With a misfit that
    grows with the model and is NaN at 6, the first pass from 5 is accepted,
    for NaN is not greater than 5, and NaN is not less or equal to 5 either;
    the next pass is accepted at 8, for 8 is not greater than NaN: the
    accepted misfits are 5, NaN, 8. *)
Lemma C2_counterexample :
  ~ @C2_as_stated _ line a9 /\
  ~ @C2_as_stated _ line_nan (toy_args 5 1%float 3 0) /\
  accepted_misfits (out (@run _ line_nan (toy_args 5 1%float 3 0) 5))
  = [8%float; PrimFloat.nan; 5%float].
Proof.
  split; [|split]; [intros H | intros H | vm_compute; reflexivity].
  - destruct (H (fun _ M => dist10 M) line_pure line_restores 24%nat)
      as (_ & B); [vm_compute; reflexivity|].
    assert (G : dbl_gt (@evaluated _ line a9 (@run _ line a9 24))
                  (like (@run _ line a9 24)) = true)
      by (vm_compute; reflexivity).
    assert (N : new_events (@run _ line a9 24) (@run _ line a9 25)
                = [printf_Exiting 1; @lik_event _ a9])
      by (vm_compute; reflexivity).
    apply B in G; rewrite N in G.
    destruct G as [G | [G | []]]; [discriminate G|].
    unfold lik_event in G; discriminate G.
  - assert (P : @pure_likelihood _ line_nan (toy_args 5 1%float 3 0)
                  (fun _ M => nan_at_6 M))
      by (split; intros; reflexivity).
    assert (R : @copy_restores _ line_nan) by (intros M v mk p; reflexivity).
    destruct (H _ P R 1%nat) as (A & _); [vm_compute; reflexivity|].
    assert (L : dbl_le
                  (like (@run _ line_nan (toy_args 5 1%float 3 0) 2))
                  (last_like (@run _ line_nan (toy_args 5 1%float 3 0) 2))
                = true)
      by (apply A; vm_compute; discriminate).
    assert (L' : dbl_le
                   (like (@run _ line_nan (toy_args 5 1%float 3 0) 2))
                   (last_like (@run _ line_nan (toy_args 5 1%float 3 0) 2))
                 = false)
      by (vm_compute; reflexivity).
    rewrite L' in L; discriminate L.
Qed.

(** C3, on the same run: it returns at the twenty-fifth transition, on
    the floor, with one accepted pass. *)
Lemma C3_invert_terminates_witness :
  (forall n, pc (@run _ line a9 n) = InnerLoop ->
     exists k, pc (@run _ line a9 (n + k)) <> InnerLoop) /\
  dbl_lt 0 (_epsilon a9) = true /\
  dbl_lt (_epsilon a9) infinity = true /\
  dbl_lt 0 (@EPSILON_MIN _ line) = true /\
  maxiterations a9 <= INT_MAX /\
  exists n,
    pc (@run _ line a9 n) = Returned /\
    @invert _ line n a9 = Some (true, @run _ line a9 n) /\
    accepted_count (out (@run _ line a9 n)) = iterations (@run _ line a9 n) /\
    iterations (@run _ line a9 n) <= Z.max 1 (maxiterations a9) /\
    (maxiterations a9 <= iterations (@run _ line a9 n) \/
     exists i, hd_error (out (@run _ line a9 n)) = Some (printf_Exiting i)).
Proof.
  assert (H1 : forall n, pc (@run _ line a9 n) = InnerLoop ->
                 exists k, pc (@run _ line a9 (n + k)) <> InnerLoop).
  { intros n _; exists 25%nat; rewrite a9_returns; vm_compute; discriminate. }
  assert (H2 : dbl_lt 0 (_epsilon a9) = true) by (vm_compute; reflexivity).
  assert (H3 : dbl_lt (_epsilon a9) infinity = true)
    by (vm_compute; reflexivity).
  assert (H4 : dbl_lt 0 (@EPSILON_MIN _ line) = true)
    by (vm_compute; reflexivity).
  assert (H5 : maxiterations a9 <= INT_MAX) by (vm_compute; discriminate).
  split; [exact H1|]; split; [exact H2|]; split; [exact H3|].
  split; [exact H4|]; split; [exact H5|].
  exact (proj1 (@C3_invert_terminates _ line a9 H1 H2 H3 H4 H5)).
Defined.

(** C3 as stated fails.  With a floor of 0.75, from the model 5 and four
    iterations: in the second pass the proposal 100 is rejected and the
    quasi-Newton step size falls from 1 to 0.5, below the floor; the next
    proposal, 8, improves the misfit and is accepted, the counter is 2,
    and the loop goes on. *)
Lemma C3_counterexample :
  ~ @C3_as_stated _ line_high_floor (toy_args 5 1%float 4 0).
Proof.
  intros H.
  destruct (H 4%nat) as (_ & B); [vm_compute; reflexivity|].
  assert (R : pc (@run _ line_high_floor (toy_args 5 1%float 4 0) 5)
              = Returned)
    by (apply B; right; vm_compute; reflexivity).
  assert (R' : pc (@run _ line_high_floor (toy_args 5 1%float 4 0) 5)
               = InnerLoop)
    by (vm_compute; reflexivity).
  rewrite R' in R; discriminate R.
Qed.

(** C5 as stated fails.  The second pass of the run starts from the
    accepted model 10 with the snapshot of the first pass, 9, in [model_v];
    its first proposal, 100, is rejected, and that turn of the loop has
    written the new snapshot 10 into [model_v]. *)
Lemma C5_counterexample : ~ @C5_as_stated _ line a9.
Proof.
  intros H.
  destruct (H 2%nat) as (_ & _ & V & _);
    [vm_compute; reflexivity | vm_compute; reflexivity |].
  assert (V3 : model_v (@run _ line a9 3) = 10) by (vm_compute; reflexivity).
  assert (V2 : model_v (@run _ line a9 2) = 9) by (vm_compute; reflexivity).
  rewrite V3, V2 in V; discriminate V.
Qed.

(** C8 at [mode = 1], the mode documented as quasi-Newton, with one
    iteration from 5: the only pass calls [step[0]], the simple strategy,
    and the model ends at 6, as it does with [mode = 0]; the quasi-Newton
    strategy would have moved it by two. *)
Lemma mode_one_runs_simple_step :
  let a := toy_args 5 1%float 1 1 in
  @invert _ line 5 a = @invert _ line 5 (set_mode 0 a) /\
  exists s,
    @invert _ line 5 a = Some (true, s) /\ model s = 6 /\
    filter (fun e => match e with call_ComputeStep _ _ => true | _ => false end)
      (out s) = [call_ComputeStep 0 1].
Proof.
  cbn zeta; split; [vm_compute; reflexivity|].
  eexists; split; [vm_compute; reflexivity|].
  split; vm_compute; reflexivity.
Qed.

End LineRun.

(** * Further properties of [invert] *)

Section MoreInvariants.
Context {T : Types} {X : Externals}.
Implicit Types (a : args) (s : state).

(** What a transition does, case by case: the shape every invariant proof
    below follows. *)
Lemma step_cases a s (P : state -> Prop) :
  (pc s = InnerLoop -> P (attempt s)) ->
  (pc s = AfterInner -> accepts a s = true -> P (evaluate a s)) ->
  (pc s = AfterInner -> backtracks a s = true -> P (evaluate a s)) ->
  (pc s = AfterInner -> exits a s = true -> P (evaluate a s)) ->
  (pc s = Returned -> P s) ->
  P (step_driver a s).
Proof.
  intros HI HA HB HE HR; unfold step_driver; destruct (pc s) eqn:E; auto.
  destruct (pass_cases a s) as [(H & _) | [(_ & H & _) | (_ & _ & H)]]; auto.
Qed.

(** X1: the prior covariance [Cm] and the prior mean [model_0] are computed
    once, before the loop, [Cm] from the initial model and [model_0] from
    the reference model, both sized by the columns of the first Jacobian;
    no transition of the loop writes them. *)
Theorem prior_fixed a n :
  let ws0 :=
    {| data := a_data a; mesh := a_mesh a; love := a_love a;
       dkdp := dmatrix_new; dUdp := dmatrix_new; dLdp := dmatrix_new;
       G := dmatrix_new; residuals := dmatrix_new; Cd := dmatrix_new |} in
  let nparam := cols (G (snd (lik a ws0 (a_model a)))) in
  Cm (run a n) =
    initialize_Cm (a_model a) (damping a) (dresize nparam 1 dmatrix_new) /\
  model_0 (run a n) =
    fst (copy_model (reference a) (dresize nparam 1 dmatrix_new)
           (iresize nparam 1 imatrix_new)).
Proof.
  cbn zeta; induction n as [|n IH].
  - cbn [run]; rewrite invert_init_fields; split; reflexivity.
  - cbn [run]; destruct IH as (IC & IM); rewrite <- IC, <- IM.
    apply step_cases; intros.
    + rewrite attempt_fields; split; reflexivity.
    + rewrite (evaluate_accept a _ H0); cbn zeta.
      match goal with |- context [loop_test a ?r] =>
        destruct (loop_test_fields a r) as (_&_&_&_&_&H0'&HC&_) end.
      rewrite H0', HC; split; reflexivity.
    + rewrite (evaluate_backtrack a _ H0); cbn zeta.
      match goal with |- context [loop_test a ?r] =>
        destruct (loop_test_fields a r) as (_&_&_&_&_&H0'&HC&_) end.
      rewrite H0', HC; split; reflexivity.
    + rewrite (evaluate_exit a _ H0); split; reflexivity.
    + split; reflexivity.
Qed.

(** X2: all along a run, and in the state [invert] returns with, [like]
    and the outputs of the solver (Jacobian, residuals, data covariance,
    predictions in the data) are those of one call of [likelihood_love] at
    the current model: nothing is carried over across a change of the
    model, also after a backtrack and after the exit on the floor. *)
Theorem likelihood_fresh a n :
  exists w,
    ws (run a n) = snd (lik a w (model (run a n))) /\
    like (run a n) = fst (lik a w (model (run a n))).
Proof.
  induction n as [|n IH].
  - cbn [run]; rewrite invert_init_fields; cbn zeta; cbn.
    eexists; split; reflexivity.
  - cbn [run]; apply step_cases; intros.
    + rewrite attempt_fields; exact IH.
    + rewrite (evaluate_accept a _ H0); cbn zeta.
      match goal with |- context [loop_test a ?r] =>
        destruct (loop_test_fields a r) as (Hw&Hm&_&_&_&_&_&_&Hl&_) end.
      rewrite Hw, Hm, Hl; cbn; eexists; split; reflexivity.
    + rewrite (evaluate_backtrack a _ H0); cbn zeta.
      match goal with |- context [loop_test a ?r] =>
        destruct (loop_test_fields a r) as (Hw&Hm&_&_&_&_&_&_&Hl&_) end.
      rewrite Hw, Hm, Hl; cbn; eexists; split; reflexivity.
    + rewrite (evaluate_exit a _ H0); cbn; eexists; split; reflexivity.
    + exact IH.
Qed.

(** X3: the cost of a run in calls of [likelihood_love], counted by the
    calls themselves: for any counter on the workspace that every call
    advances by one, the workspace of a state has been through one call
    for the initial model, one for every accepted pass printed, two for
    every backtrack printed (the proposal and the restored model) and one
    for the pass that printed "Exiting". *)
Theorem likelihood_calls a (count : workspace -> Z) n :
  (forall w M R D P t o h b sc f,
     count (snd (likelihood_love w M R D P t o h b sc f)) = count w + 1) ->
  let ws0 :=
    {| data := a_data a; mesh := a_mesh a; love := a_love a;
       dkdp := dmatrix_new; dUdp := dmatrix_new; dLdp := dmatrix_new;
       G := dmatrix_new; residuals := dmatrix_new; Cd := dmatrix_new |} in
  count (ws (run a n)) =
    count ws0 + 1 + accepted_count (out (run a n))
      + 2 * backtrack_count (out (run a n))
      + exit_count (out (run a n)).
Proof.
  intros Tick; cbn zeta.
  assert (L : forall w M, count (snd (lik a w M)) = count w + 1)
    by (intros; apply Tick).
  induction n as [|n IH].
  - cbn [run]; rewrite invert_init_fields; cbn zeta; cbn [out ws].
    rewrite L.
    destruct (save_predictions _ _); cbn -[Z.add Z.mul]; lia.
  - cbn [run]; apply step_cases; intros.
    + rewrite attempt_fields; cbn -[Z.add Z.mul]; exact IH.
    + rewrite (evaluate_accept a _ H0); cbn zeta.
      match goal with |- context [loop_test a ?r] =>
        destruct (loop_test_fields a r) as (Hw&_&_&_&_&_&_&_&_&_&_&Ho) end.
      rewrite Hw, Ho; cbn -[Z.add Z.mul]; rewrite L; lia.
    + rewrite (evaluate_backtrack a _ H0); cbn zeta.
      match goal with |- context [loop_test a ?r] =>
        destruct (loop_test_fields a r) as (Hw&_&_&_&_&_&_&_&_&_&_&Ho) end.
      rewrite Hw, Ho; cbn -[Z.add Z.mul]; rewrite !L; lia.
    + rewrite (evaluate_exit a _ H0); cbn -[Z.add Z.mul]; rewrite L; lia.
    + exact IH.
Qed.

(** While the loop runs nothing was printed by the floor exit; once it is
    left, "Exiting" can only be the last line. *)
Lemma exit_last_inv a n :
  let s := run a n in
  (pc s <> Returned -> exit_count (out s) = 0) /\
  (pc s = Returned -> exit_count (tl (out s)) = 0).
Proof.
  cbn zeta; induction n as [|n (IH1 & IH2)].
  - cbn [run]; rewrite invert_init_fields; cbn zeta; cbn [out pc].
    split; [|discriminate]; intros _.
    destruct (save_predictions _ _); reflexivity.
  - cbn [run]; apply step_cases; intros.
    + rewrite attempt_fields; cbn [out pc exit_count tl].
      specialize (IH1 ltac:(congruence)).
      split; intros _; exact IH1.
    + specialize (IH1 ltac:(congruence)).
      rewrite (evaluate_accept a _ H0); cbn zeta.
      match goal with |- context [loop_test a ?r] =>
        destruct (loop_test_fields a r) as (_&_&_&_&_&_&_&_&_&_&_&Ho) end.
      rewrite Ho; cbn [out exit_count tl lik_event]; split; intros _; exact IH1.
    + specialize (IH1 ltac:(congruence)).
      rewrite (evaluate_backtrack a _ H0); cbn zeta.
      match goal with |- context [loop_test a ?r] =>
        destruct (loop_test_fields a r) as (_&_&_&_&_&_&_&_&_&_&_&Ho) end.
      rewrite Ho; cbn [out exit_count tl lik_event]; split; intros _; exact IH1.
    + specialize (IH1 ltac:(congruence)).
      rewrite (evaluate_exit a _ H0); cbn [out pc exit_count tl lik_event].
      split; [congruence | intros _; exact IH1].
    + split; [congruence | exact IH2].
Qed.

Lemma exit_count_in l i : In (printf_Exiting i) l -> 0 < exit_count l.
Proof.
  assert (P : forall l', 0 <= exit_count l')
    by (induction l' as [|e l' IH]; cbn -[Z.add]; [lia | destruct e; lia]).
  induction l as [|e l IH]; [contradiction|].
  intros [-> | H]; cbn -[Z.add].
  - specialize (P l); lia.
  - specialize (IH H); destruct e; lia.
Qed.

(** X4: "Exiting" is printed at most once and ends the run: when a log
    holds it, [invert] has returned, it is the last line of the log, and it
    carries the counter of the returned state. *)
Theorem exiting_is_last a n i :
  In (printf_Exiting i) (out (run a n)) ->
  pc (run a n) = Returned /\
  hd_error (out (run a n)) = Some (printf_Exiting i) /\
  exit_count (out (run a n)) = 1.
Proof.
  intros H; destruct (exit_last_inv a n) as (H1 & H2).
  pose proof (exit_count_in _ _ H) as P.
  destruct (pc (run a n)) eqn:E;
    try (specialize (H1 ltac:(discriminate)); lia).
  specialize (H2 eq_refl); split; [reflexivity|].
  destruct (out (run a n)) as [|e l]; [contradiction|]; cbn [tl] in H2.
  destruct H as [-> | H].
  - cbn -[Z.add]; split; [reflexivity | lia].
  - apply exit_count_in in H; lia.
Qed.

Lemma numbered_run a n :
  maxiterations a <= INT_MAX -> numbered (out (run a n)).
Proof.
  intros Hmax; induction n as [|n IH].
  - cbn [run]; rewrite invert_init_fields; cbn zeta; cbn [out].
    destruct (save_predictions _ _); exact I.
  - pose proof (counter_ok_run a n Hmax) as (_ & _ & C & _).
    cbn [run]; apply step_cases; intros.
    + rewrite attempt_fields; exact IH.
    + rewrite (evaluate_accept a _ H0); cbn zeta.
      match goal with |- context [loop_test a ?r] =>
        destruct (loop_test_fields a r) as (_&_&_&_&_&_&_&_&_&_&_&Ho) end.
      rewrite Ho; cbn [out numbered accepted_count lik_event].
      split; [now rewrite C | exact IH].
    + rewrite (evaluate_backtrack a _ H0); cbn zeta.
      match goal with |- context [loop_test a ?r] =>
        destruct (loop_test_fields a r) as (_&_&_&_&_&_&_&_&_&_&_&Ho) end.
      rewrite Ho; exact IH.
    + rewrite (evaluate_exit a _ H0); exact IH.
    + exact IH.
Qed.

Lemma numbered_split l : forall l1 l2 i x e,
  numbered l -> l = l1 ++ printf_progress i x e :: l2 -> i = accepted_count l2.
Proof.
  induction l as [|e0 l IH]; intros l1 l2 i x e N E.
  - destruct l1; discriminate.
  - destruct l1 as [|e1 l1]; cbn in E; injection E as -> E.
    + subst l; apply N.
    + apply (IH l1 l2 i x e); [|exact E].
      destruct e1; cbn in N; try exact N; apply N.
Qed.

(** X5: the progress lines of a run are numbered 0, 1, 2, ... without a
    gap: the line of an accepted pass carries the number of passes accepted
    before it (backtracks do not advance the number), for every
    [maxiterations] that is an [int]. *)
Theorem progress_lines_numbered a n l1 l2 i x e :
  maxiterations a <= INT_MAX ->
  out (run a n) = l1 ++ printf_progress i x e :: l2 ->
  i = accepted_count l2.
Proof.
  intros Hmax E; apply (numbered_split _ l1 l2 i x e (numbered_run a n Hmax) E).
Qed.

(** X6: no proposal reaches the model or the likelihood without having
    passed [validate]: after the inner loop, [model_v_proposed] satisfies
    the prior bounds under the mask of the current model, and [model_v] and
    [model_mask] are the snapshot of the current model. *)
Theorem proposal_validated a n :
  pc (run a n) = AfterInner ->
  let s := run a n in
  validate (model_v_proposed s) (model_mask s) PRIOR_MIN PRIOR_MAX = true /\
  exists v mk, (model_v s, model_mask s) = copy_model (model s) v mk.
Proof.
  cbn zeta; destruct n as [|n].
  - cbn [run]; rewrite invert_init_fields; discriminate.
  - cbn [run]; apply step_cases; intros H.
    + rewrite attempt_fields; cbn.
      destruct (validate _ _ _ _) eqn:V; [|discriminate].
      intros _; split; [reflexivity|].
      eexists _, _; now rewrite <- surjective_pairing.
    + intros A; rewrite (evaluate_accept a _ A), loop_test_pc.
      destruct (_ <? _); discriminate.
    + intros B; rewrite (evaluate_backtrack a _ B), loop_test_pc.
      destruct (_ <? _); discriminate.
    + intros E; rewrite (evaluate_exit a _ E); discriminate.
    + congruence.
Qed.

End MoreInvariants.

(** ** The order of doubles is transitive *)

Section DoubleOrder.

Lemma SFleb_trans x y z :
  SFleb x y = true -> SFleb y z = true -> SFleb x z = true.
Proof.
  unfold SFleb, SFcompare.
  destruct x as [[]|[]| |[] mx ex], y as [[]|[]| |[] my ey],
           z as [[]|[]| |[] mz ez];
    try discriminate; try reflexivity.
  - destruct (Z.compare_spec ex ey), (Z.compare_spec ey ez),
      (Z.compare_spec ex ez); try discriminate; try reflexivity; try lia;
      subst;
      change (PosDef.Pos.compare_cont Eq) with Pos.compare;
      destruct (Pos.compare_spec mx my), (Pos.compare_spec my mz),
        (Pos.compare_spec mx mz); cbn; try discriminate; try reflexivity;
        try lia.
  - destruct (Z.compare_spec ex ey), (Z.compare_spec ey ez),
      (Z.compare_spec ex ez); try discriminate; try reflexivity; try lia;
      subst;
      change (PosDef.Pos.compare_cont Eq) with Pos.compare;
      destruct (Pos.compare_spec mx my), (Pos.compare_spec my mz),
        (Pos.compare_spec mx mz); cbn; try discriminate; try reflexivity;
        try lia.
Qed.

Lemma dbl_le_trans x y z :
  dbl_le x y = true -> dbl_le y z = true -> dbl_le x z = true.
Proof. unfold dbl_le; rewrite !leb_spec; apply SFleb_trans. Qed.

Lemma dbl_le_refl_number x : PrimFloat.is_nan x = false -> dbl_le x x = true.
Proof. intros H; apply dbl_not_gt_le; auto using dbl_gt_irrefl. Qed.

End DoubleOrder.

(** ** The misfit that [invert] returns with *)

Section ReturnedMisfit.
Context {T : Types} {X : Externals}.
Implicit Types (a : args) (s : state).

Lemma exit_count_nonneg l : 0 <= exit_count l.
Proof. induction l as [|e l IH]; cbn -[Z.add]; [lia | destruct e; lia]. Qed.

(** As long as the floor exit has not been taken, [like] is the misfit of
    the model and is not above the initial misfit. *)
Lemma never_worse_inv a misfit n :
  pure_likelihood a misfit -> copy_restores ->
  (forall d M, PrimFloat.is_nan (misfit d M) = false) ->
  let s := run a n in
  exit_count (out s) = 0 ->
  like s = misfit (data (ws s)) (model s) /\
  dbl_le (like s) (misfit (a_data a) (a_model a)) = true.
Proof.
  intros P R Hnum; cbn zeta; induction n as [|n IH].
  - cbn [run]; rewrite invert_init_fields; cbn zeta; cbn.
    destruct P as [P1 P2]; intros _; rewrite !P1, !P2; cbn.
    split; [reflexivity | now apply dbl_le_refl_number].
  - destruct (between_passes_run a misfit n P R) as (_ & _ & V).
    destruct P as [P1 P2].
    cbn [run]; apply step_cases; intros.
    + rewrite attempt_fields in *; cbn in *; now apply IH.
    + revert H1; rewrite (evaluate_accept a _ H0); cbn zeta.
      match goal with |- context [loop_test a ?r] =>
        destruct (loop_test_fields a r) as (Hw&Hm&_&_&_&_&_&_&Hl&_&_&Ho) end.
      rewrite Hw, Hm, Hl, Ho; cbn -[Z.add]; intros E.
      destruct (IH E) as (IL & IB).
      split; [now rewrite P1, P2|].
      apply dbl_le_trans with (y := like (run a n)); [|exact IB].
      unfold accepts in H0; apply negb_true_iff in H0.
      apply dbl_not_gt_le; [| |exact H0].
      * unfold evaluated in *; rewrite P1; apply Hnum.
      * rewrite IL; apply Hnum.
    + revert H1; rewrite (evaluate_backtrack a _ H0); cbn zeta.
      match goal with |- context [loop_test a ?r] =>
        destruct (loop_test_fields a r) as (Hw&Hm&_&_&_&_&_&_&Hl&_&_&Ho) end.
      rewrite Hw, Hm, Hl, Ho; cbn -[Z.add]; intros E.
      destruct (IH E) as (IL & IB).
      destruct (V H) as (v & mk & Hv).
      rewrite Hv, R, !P1, !P2; split; [reflexivity|].
      now rewrite <- IL.
    + revert H1; rewrite (evaluate_exit a _ H0); cbn -[Z.add].
      pose proof (exit_count_nonneg (out (run a n))); lia.
    + now apply IH.
Qed.

(** X7: with a likelihood that is a pure function of data and model and
    never NaN, and [copy] restoring the snapshot: when [invert] returns
    without having printed "Exiting", the model it returns has the misfit
    [like], and that misfit is less or equal to the misfit of the initial
    model. *)
Theorem returned_model_not_worse a misfit fuel s :
  pure_likelihood a misfit -> copy_restores ->
  (forall d M, PrimFloat.is_nan (misfit d M) = false) ->
  invert fuel a = Some (true, s) ->
  exit_count (out s) = 0 ->
  like s = misfit (data (ws s)) (model s) /\
  dbl_le (like s) (misfit (a_data a) (a_model a)) = true.
Proof.
  intros P R Hnum Hi He; unfold invert in Hi.
  change (invert_init a) with (run a 0) in Hi.
  destruct (exec a fuel (run a 0)) as [s'|] eqn:E; [|discriminate].
  injection Hi as <-; apply exec_run in E; destruct E as (k & _ & -> & _).
  now apply (never_worse_inv a misfit (0 + k) P R Hnum).
Qed.

End ReturnedMisfit.

(** ** A step size that is not a number *)

Section NanEpsilon.
Context {T : Types} {X : Externals}.
Implicit Types (a : args) (s : state).

Lemma SFcompare_refl x : x <> S754_nan -> SFcompare x x = Some Eq.
Proof.
  destruct x as [s|s| |s m e]; cbn; try congruence;
    try (now destruct s); intros _.
  destruct s; rewrite Z.compare_refl;
    change (PosDef.Pos.compare_cont Eq m m) with (m ?= m)%positive;
    now rewrite Pos.compare_refl.
Qed.

Lemma is_nan_spec x : PrimFloat.is_nan x = true -> Prim2SF x = S754_nan.
Proof.
  unfold PrimFloat.is_nan; rewrite eqb_spec; unfold SFeqb; intros H.
  destruct (Prim2SF x) as [s|s| |s m e] eqn:E; try reflexivity;
    rewrite SFcompare_refl in H by discriminate; discriminate.
Qed.

Lemma halve_n_nan k x :
  Prim2SF x = S754_nan -> Prim2SF (halve_n k x) = S754_nan.
Proof.
  intros H; induction k as [|k IH]; cbn [halve_n]; [exact H|].
  now rewrite halve_spec, IH.
Qed.

Lemma dbl_lt_nan x y : Prim2SF x = S754_nan -> dbl_lt x y = false.
Proof. unfold dbl_lt; rewrite ltb_spec; now intros ->. Qed.

Lemma dbl_le_nan x y : Prim2SF x = S754_nan -> dbl_le x y = false.
Proof. unfold dbl_le; rewrite leb_spec; now intros ->. Qed.

(** With a step size that is not a number no pass leaves the loop on the
    floor: halving keeps it, and it compares below nothing. *)
Lemma nan_never_exits a n :
  PrimFloat.is_nan (_epsilon a) = true -> exit_count (out (run a n)) = 0.
Proof.
  intros H; apply is_nan_spec in H.
  assert (E : forall n, exits a (run a n) = false).
  { intros k; unfold exits.
    destruct (epsilon_halved a k) as (k0 & k1 & ->).
    rewrite (dbl_lt_nan (eps_get _ _));
      [apply Bool.andb_false_r|].
    unfold eps_get; destruct (_ =? 0); cbn [fst snd]; now apply halve_n_nan. }
  induction n as [|n IH].
  - cbn [run]; rewrite invert_init_fields; cbn zeta; cbn [out].
    destruct (save_predictions _ _); reflexivity.
  - cbn [run]; apply step_cases; intros.
    + rewrite attempt_fields; cbn [out exit_count]; exact IH.
    + rewrite (evaluate_accept a _ H1); cbn zeta.
      match goal with |- context [loop_test a ?r] =>
        destruct (loop_test_fields a r) as (_&_&_&_&_&_&_&_&_&_&_&Ho) end.
      rewrite Ho; cbn [out exit_count lik_event]; exact IH.
    + rewrite (evaluate_backtrack a _ H1); cbn zeta.
      match goal with |- context [loop_test a ?r] =>
        destruct (loop_test_fields a r) as (_&_&_&_&_&_&_&_&_&_&_&Ho) end.
      rewrite Ho; cbn [out exit_count lik_event]; exact IH.
    + rewrite E in H1; discriminate.
    + exact IH.
Qed.

End NanEpsilon.

(** * The program around [invert] *)

(** ** The options *)

Section MainOptions.
Context {T : Types} {X : Externals} {Y : MainExternals}.
Implicit Types (v : options) (l : list (Ascii.ascii * string)).

Import Ascii.
Local Open Scope char_scope.

Lemma array_set_length {A} i (x : A) d :
  List.length (array_set i x d) = List.length d.
Proof.
  revert i; induction d as [|y d IH]; intros [|i]; cbn; auto.
Qed.

Lemma array_set_Forall {A} (P : A -> Prop) i x d :
  P x -> Forall P d -> Forall P (array_set i x d).
Proof.
  intros Hx H; revert i; induction H as [|y d Hy H IH]; intros [|i]; cbn;
    auto.
Qed.

Lemma dbl_lt_le x y : dbl_lt x y = true -> dbl_le x y = true.
Proof.
  unfold dbl_lt, dbl_le; rewrite ltb_spec, leb_spec; unfold SFltb, SFleb.
  destruct (SFcompare _ _) as [[| |]|]; congruence.
Qed.

Lemma dbl_not_le_not_lt x y : dbl_le x y = false -> dbl_lt x y = false.
Proof.
  intros H; destruct (dbl_lt x y) eqn:E; [|reflexivity].
  apply dbl_lt_le in E; congruence.
Qed.

Lemma defaults_ok : options_ok defaults.
Proof.
  unfold options_ok; cbn; repeat split; try lia;
    repeat constructor.
Qed.

Ltac switch_cases H :=
  unfold handle_option in H;
  repeat match type of H with
         | (if ?b then _ else _) = _ => destruct b eqn:?
         end;
  try discriminate H; injection H as <-.

Opaque array_set.

Lemma handle_option_ok pname c optarg v v' :
  options_ok v -> handle_option pname c optarg v = inr v' -> options_ok v'.
Proof.
  intros (L & D & S & E & O & H & B & N & M) K.
  switch_cases K; unfold options_ok; cbn -[array_set dbl_lt dbl_le];
    rewrite ?array_set_length;
    repeat match goal with
           | H : (_ || _)%bool = false |- _ =>
               apply Bool.orb_false_iff in H; destruct H
           | H : (_ <? _)%Z = false |- _ => apply Z.ltb_ge in H
           end;
    repeat match goal with
           | |- _ /\ _ => split
           end;
    try assumption; try lia;
    try (apply array_set_Forall; assumption).
Qed.

Transparent array_set.

Lemma getopt_loop_ok pname l : forall v v',
  options_ok v -> getopt_loop pname l v = inr v' -> options_ok v'.
Proof.
  induction l as [|[c optarg] l IH]; intros v v' Hv; cbn.
  - now intros [= <-].
  - destruct (handle_option pname c optarg v) as [e|v1] eqn:E;
      [discriminate|].
    apply IH; eapply handle_option_ok; eauto.
Qed.

Lemma getopt_loop_app pname l1 l2 v :
  getopt_loop pname (l1 ++ l2) v =
  match getopt_loop pname l1 v with
  | inl e => inl e
  | inr v' => getopt_loop pname l2 v'
  end.
Proof.
  revert v; induction l1 as [|[c optarg] l1 IH]; intros v; cbn;
    [reflexivity|].
  destruct (handle_option pname c optarg v); [reflexivity | apply IH].
Qed.

(** Each file name is the argument of the last occurrence of its
    option. *)
Lemma handle_option_files pname c optarg v v' :
  handle_option pname c optarg v = inr v' ->
  input_file v' = (if c =? "i" then Some optarg else input_file v) /\
  phase_file v' = (if c =? "C" then Some optarg else phase_file v) /\
  reference_file v' = (if c =? "r" then Some optarg else reference_file v) /\
  output_file v' = (if c =? "o" then Some optarg else output_file v).
Proof.
  intros K; unfold handle_option in K.
  repeat match type of K with
         | (if (c =? ?x) then _ else _) = _ =>
             destruct (Ascii.eqb_spec c x) as [->|]
         | (if ?b then _ else _) = _ => destruct b eqn:?
         end;
    try discriminate K; injection K as <-; cbn;
    repeat match goal with
           | |- context [(?c =? ?x)] =>
               destruct (Ascii.eqb_spec c x); try congruence
           end; auto.
Qed.

Lemma getopt_loop_files pname l : forall v v',
  getopt_loop pname l v = inr v' ->
  input_file v' =
    match last_arg "i" l with Some x => Some x | None => input_file v end /\
  phase_file v' =
    match last_arg "C" l with Some x => Some x | None => phase_file v end /\
  reference_file v' =
    match last_arg "r" l with Some x => Some x | None => reference_file v end /\
  output_file v' =
    match last_arg "o" l with Some x => Some x | None => output_file v end.
Proof.
  induction l as [|[c optarg] l IH]; intros v v'; cbn [getopt_loop last_arg].
  - intros [= <-]; auto.
  - destruct (handle_option pname c optarg v) as [e|v1] eqn:E;
      [discriminate|].
    intros K; apply IH in K; destruct K as (K1 & K2 & K3 & K4).
    apply handle_option_files in E; destruct E as (E1 & E2 & E3 & E4).
    rewrite K1, K2, K3, K4, E1, E2, E3, E4.
    repeat split;
      match goal with
      | |- context [last_arg ?x l] => destruct (last_arg x l)
      end;
      try match goal with
          | |- context [(c =? ?x)] => destruct (c =? x)
          end; reflexivity.
Qed.

(** X8: the options that the loop of [main] accepts satisfy the bounds
    that its checks enforce: the four dampings are not below 0, [scale]
    and [epsilon] are not [<= 0], [order], [highorder], [boundaryorder]
    and [maxiterations] are 1 or more, and [mode] is 0 or 1. *)
Theorem accepted_options_in_bounds pname l v :
  getopt_loop pname l defaults = inr v -> options_ok v.
Proof. apply getopt_loop_ok, defaults_ok. Qed.

(** X9: the options [f] and [F] are declared in [short_options] (and as
    [--fmin] and [--fmax] in [long_options]) but the [switch] has no case
    for them: after any accepted options, one of them makes [main] print
    [unknown option], show the usage and return -1, whatever follows. *)
Theorem fmin_fmax_options_rejected fuel pname l1 c optarg l2 v :
  getopt_loop pname l1 defaults = inr v ->
  c = "f" \/ c = "F" ->
  In c (list_ascii_of_string short_options) /\
  main fuel pname (l1 ++ (c, optarg) :: l2) =
    Some (Exit (-1) [call_usage pname; stderr_unknown_option c]).
Proof.
  intros H [-> | ->]; (split; [cbn; tauto|]);
    unfold main; rewrite getopt_loop_app, H; reflexivity.
Qed.

Lemma main_with_files fuel pname l v :
  getopt_loop pname l defaults = inr v ->
  main fuel pname l =
    match last_arg "i" l, last_arg "C" l, last_arg "r" l, last_arg "o" l with
    | None, _, _, _ =>
        Some (Exit (-1) [stderr_line "error: missing input file paramter"])
    | Some _, None, _, _ =>
        Some (Exit (-1) [stderr_line "error: missing input phase parameter"])
    | Some _, Some _, None, _ =>
        Some (Exit (-1)
                [stderr_line "error: missing reference file parameter"])
    | Some _, Some _, Some _, None =>
        Some (Exit (-1) [stderr_line "error: missing output file parameter"])
    | Some input, Some phase, Some reffile, Some output =>
        main_run fuel v input phase reffile output
    end.
Proof.
  intros H; unfold main; rewrite H.
  apply getopt_loop_files in H; destruct H as (-> & -> & -> & ->); cbn.
  destruct (last_arg "i" l), (last_arg "C" l), (last_arg "r" l),
    (last_arg "o" l); reflexivity.
Qed.


(** X10: each of the four file names is the argument of the last
    occurrence of its option ([i], [C], [r], [o]); when the accepted
    options leave one of them out, [main] prints the message of the first
    missing one and returns -1 before it loads or writes anything, and
    otherwise it goes on with these four names. *)
Theorem files_from_last_occurrence fuel pname l v :
  getopt_loop pname l defaults = inr v ->
  main fuel pname l =
    match last_arg "i" l, last_arg "C" l, last_arg "r" l, last_arg "o" l with
    | None, _, _, _ =>
        Some (Exit (-1) [stderr_line "error: missing input file paramter"])
    | Some _, None, _, _ =>
        Some (Exit (-1) [stderr_line "error: missing input phase parameter"])
    | Some _, Some _, None, _ =>
        Some (Exit (-1)
                [stderr_line "error: missing reference file parameter"])
    | Some _, Some _, Some _, None =>
        Some (Exit (-1) [stderr_line "error: missing output file parameter"])
    | Some input, Some phase, Some reffile, Some output =>
        main_run fuel v input phase reffile output
    end.
Proof. apply main_with_files. Qed.

End MainOptions.

(** ** From the options to the result files *)

Section MainRun.
Context {T : Types} {X : Externals} {Y : MainExternals}.
Implicit Types (v : options) (l : list (Ascii.ascii * string)).

Import Ascii.
Local Open Scope char_scope.

Lemma dbl_pos_of_not_le x :
  dbl_le x 0 = false -> dbl_lt x infinity = true -> dbl_le 0 x = true.
Proof.
  unfold dbl_le, dbl_lt; rewrite !leb_spec, ltb_spec.
  rewrite Prim2SF_zero, Prim2SF_infinity.
  destruct (Prim2SF x) as [s|s| |s m e]; try destruct s; cbn; congruence.
Qed.

Lemma dbl_lt_infinity_zero x :
  dbl_le x 0 = false -> dbl_lt x infinity = true -> dbl_lt 0 x = true.
Proof.
  unfold dbl_le, dbl_lt; rewrite leb_spec, !ltb_spec.
  rewrite Prim2SF_zero, Prim2SF_infinity.
  destruct (Prim2SF x) as [s|s| |s m e]; try destruct s; cbn; congruence.
Qed.

Lemma invert_some fuel a b s :
  invert fuel a = Some (b, s) ->
  b = true /\ exists n, (n <= fuel)%nat /\ s = run a n /\ pc s = Returned.
Proof.
  unfold invert; destruct (exec a fuel (invert_init a)) as [s'|] eqn:E;
    [|discriminate].
  intros [= <- <-]; split; [reflexivity|].
  change (invert_init a) with (run a 0) in E.
  apply exec_run in E; destruct E as (k & Hk & E & P).
  exists k; auto.
Qed.

Lemma invert_mono fuel fuel' a x :
  invert fuel a = Some x -> (fuel <= fuel')%nat -> invert fuel' a = Some x.
Proof.
  destruct x as [b s]; intros H L.
  apply invert_some in H; destruct H as (-> & n & Hn & -> & P).
  apply invert_reaches; [exact P | lia].
Qed.

(** More transitions than needed give the same outcome. *)
Lemma main_run_mono fuel fuel' v input phase reffile output o :
  main_run fuel v input phase reffile output = Some o ->
  (fuel <= fuel')%nat ->
  main_run fuel' v input phase reffile output = Some o.
Proof.
  intros H L; unfold main_run in *.
  destruct (load _ input) as [[|] d1]; cbn [negb] in *; [|exact H].
  destruct (load_phase d1 phase) as [[|] d2]; cbn [negb] in *; [|exact H].
  destruct (ReferenceModel_load _ _ _) as [[|] [M0 R0]]; cbn [negb] in *;
    [|exact H].
  destruct (sprintf_filename output ".initial-model"); [|exact H].
  destruct (model_save M0 _); cbn [negb] in *; [|exact H].
  destruct (sprintf_filename output ".test-initial-model"); [|exact H].
  destruct (model_save R0 _); cbn [negb] in *; [|exact H].
  destruct (invert fuel _) as [x|] eqn:I; [|discriminate].
  now rewrite (invert_mono _ _ _ _ I L).
Qed.

Ltac main_cases H :=
  repeat match type of H with
         | context [negb ?b] => is_var b; destruct b; cbn [negb] in H
         | match ?x with _ => _ end = _ => destruct x eqn:?
         end;
  try discriminate H.

(** X11: for the options that [main] accepts, the run of [invert] that it
    starts keeps its step sizes from growing and prints at most
    [maxiterations] accepted iterations, on whatever data and models the
    files gave. *)
Theorem accepted_options_bound_inversion pname l v d M R n i :
  getopt_loop pname l defaults = inr v ->
  opt_maxiterations v <= INT_MAX ->
  let a := invert_args v d M R in
  dbl_gt (eps_get i (epsilon (run a (S n))))
         (eps_get i (epsilon (run a n))) = false /\
  0 <= accepted_count (out (run a n)) <= opt_maxiterations v.
Proof.
  intros H Hmax a.
  apply getopt_loop_ok in H; [|apply defaults_ok].
  destruct H as (_ & _ & _ & E & _ & _ & _ & N & _).
  assert (Hn : dbl_lt (_epsilon a) 0 = false)
    by (apply dbl_not_le_not_lt; exact E).
  split.
  - pose proof (epsilon_not_neg a n i Hn) as Hs.
    destruct (step_epsilon a (run a n) i) as [K | (K & _)];
      change (step_driver a (run a n)) with (run a (S n)) in K; rewrite K.
    + apply dbl_gt_irrefl.
    + now apply halve_not_gt.
  - destruct (counter_ok_run a n Hmax) as (B & _ & C & _).
    rewrite C; change (maxiterations a) with (opt_maxiterations v) in B.
    lia.
Qed.

Lemma handle_option_log pname c optarg v e :
  handle_option pname c optarg v = inl e ->
  ~ In (stderr_line "error: failed to invert") e.
Proof.
  intros K; unfold handle_option in K.
  repeat match type of K with
         | (if ?b then _ else _) = _ => destruct b eqn:?
         end;
    try discriminate K; injection K as <-; cbn; intros F;
    repeat (destruct F as [F | F]; [discriminate F|]); exact F.
Qed.

Lemma getopt_loop_log pname l : forall v e,
  getopt_loop pname l v = inl e ->
  ~ In (stderr_line "error: failed to invert") e.
Proof.
  induction l as [|[c optarg] l IH]; intros v e; cbn; [discriminate|].
  destruct (handle_option pname c optarg v) as [e'|v1] eqn:E.
  - intros [= <-]; eapply handle_option_log; eauto.
  - apply IH.
Qed.

(** X12: [main] never reports [error: failed to invert]: [invert] has no
    [return false], so the branch of line 359 is dead. *)
Theorem failed_to_invert_never_reported fuel pname l o :
  main fuel pname l = Some o ->
  ~ In (stderr_line "error: failed to invert") (outcome_log o).
Proof.
  unfold main; intros H.
  destruct (getopt_loop pname l defaults) as [e|v] eqn:G.
  - injection H as <-; cbn; eapply getopt_loop_log; eauto.
  - unfold main_run in H; main_cases H;
      try match goal with
          | I : invert _ _ = Some (false, _) |- _ =>
              apply invert_some in I; destruct I; discriminate
          end;
      injection H as <-; cbn;
      repeat (let F := fresh in intros [F | F]; [discriminate F | revert F]);
      intros [].
Qed.

(** X13: exit status 0 means that the files were loaded and all four
    result files written: the model and the reference that
    [reference.load] gave, saved as the two initial models; then, after
    the run of [invert] on the loaded data and these two models, the model
    and the predictions of the state in which that run ended; each save
    reporting success, under the output name of the last [-o]. *)
Theorem exit_zero_writes_the_results fuel pname l log :
  main fuel pname l = Some (Exit 0 log) ->
  exists v input phase reffile output n,
    getopt_loop pname l defaults = inr v /\
    last_arg "i" l = Some input /\ last_arg "C" l = Some phase /\
    last_arg "r" l = Some reffile /\ last_arg "o" l = Some output /\
    let r1 := load (DispersionData_new (fmin v) (fmax v)) input in
    let r2 := load_phase (snd r1) phase in
    let r3 :=
      ReferenceModel_load reffile true (int_to_size_t (opt_order v)) in
    let d := initialise_target (snd r2) in
    let M := fst (snd r3) in
    let R := snd (snd r3) in
    let s := run (invert_args v d M R) n in
    fst r1 = true /\ fst r2 = true /\ fst r3 = true /\
    pc s = Returned /\ (n <= fuel)%nat /\
    log =
      [predictions_saved (output ++ ".pred") (data (ws s)) true;
       model_saved (output ++ ".model") (model s) true;
       invert_returned s;
       model_saved (output ++ ".test-initial-model") R true;
       model_saved (output ++ ".initial-model") M true;
       printf_actual_range (freq_ffirst d) (freq_flast d);
       printf_desired_range (freq_ffirst (snd r2)) (freq_flast (snd r2))].
Proof.
  intros H.
  destruct (getopt_loop pname l defaults) as [e|v] eqn:G;
    [unfold main in H; rewrite G in H; discriminate|].
  rewrite (main_with_files fuel pname l v G) in H.
  destruct (last_arg "i" l) as [input|], (last_arg "C" l) as [phase|],
    (last_arg "r" l) as [reffile|], (last_arg "o" l) as [output|];
    try discriminate.
  unfold main_run in H.
  destruct (load _ input) as [ok1 d1] eqn:L1; destruct ok1;
    cbn [negb] in H; [|discriminate].
  destruct (load_phase d1 phase) as [ok2 d2] eqn:L2; destruct ok2;
    cbn [negb] in H; [|discriminate].
  destruct (ReferenceModel_load _ _ _) as [ok3 [M R]] eqn:L3; destruct ok3;
    cbn [negb] in H; [|discriminate].
  unfold sprintf_filename in H.
  destruct (_ <=? _)%nat; [|discriminate].
  destruct (model_save M _); cbn [negb] in H; [|discriminate].
  destruct (_ <=? _)%nat; [|discriminate].
  destruct (model_save R _); cbn [negb] in H; [|discriminate].
  destruct (invert fuel _) as [[ok s]|] eqn:I; [|discriminate].
  apply invert_some in I; destruct I as (-> & n & Hn & -> & P).
  cbn [negb] in H.
  destruct (_ <=? _)%nat; [|discriminate].
  destruct (model_save _ _); cbn [negb] in H; [|discriminate].
  destruct (_ <=? _)%nat; [|discriminate].
  destruct (save_predictions _ _); cbn [negb] in H; [|discriminate].
  injection H as <-.
  exists v, input, phase, reffile, output, n; cbn zeta.
  rewrite L1; cbn [fst snd]; rewrite L2, L3; cbn [fst snd].
  repeat split; auto.
Qed.

(** X14: [main] runs past the end of [filename[1024]] only when the output
    name of the last [-o] has more than 1004 characters. *)
Theorem overflow_needs_long_output_name fuel pname l log :
  main fuel pname l = Some (Undefined log) ->
  exists output,
    last_arg "o" l = Some output /\ (1004 < String.length output)%nat.
Proof.
  intros H.
  destruct (getopt_loop pname l defaults) as [e|v] eqn:G;
    [unfold main in H; rewrite G in H; discriminate|].
  rewrite (main_with_files fuel pname l v G) in H.
  destruct (last_arg "i" l), (last_arg "C" l), (last_arg "r" l),
    (last_arg "o" l) as [output|]; try discriminate.
  exists output; split; [reflexivity|].
  unfold main_run in H; main_cases H;
    unfold sprintf_filename in *;
    repeat match goal with
           | K : (if ?b then _ else _) = _ |- _ =>
               destruct b eqn:?; try discriminate K
           end;
    repeat match goal with
           | K : (_ <=? _)%nat = false |- _ => apply Nat.leb_gt in K
           | K : (_ <=? _)%nat = true |- _ => apply Nat.leb_le in K
           end;
    cbn [String.length] in *; lia.
Qed.

Lemma invert_call_args v input phase reffile output a :
  invert_call v input phase reffile output = Some a ->
  exists d M R, a = invert_args v d M R.
Proof.
  unfold invert_call.
  destruct (load _ input) as [ok1 d1], (load_phase d1 phase) as [ok2 d2],
    (ReferenceModel_load _ _ _) as [ok3 [M R]].
  destruct (sprintf_filename output ".initial-model"); [|discriminate].
  destruct (sprintf_filename output ".test-initial-model"); [|discriminate].
  destruct (_ && _); [|discriminate].
  intros [= <-]; eauto.
Qed.

(** [main] ends when the call of [invert] it makes, if any, returns. *)
Lemma main_run_ends v input phase reffile output :
  (forall a, invert_call v input phase reffile output = Some a ->
     exists n, pc (run a n) = Returned) ->
  exists fuel o, main_run fuel v input phase reffile output = Some o.
Proof.
  unfold invert_call, main_run.
  destruct (load _ input) as [[|] d1]; cbn [negb andb];
    [|exists O; eexists; reflexivity].
  destruct (load_phase d1 phase) as [[|] d2]; cbn [negb andb];
    [|exists O; eexists; reflexivity].
  destruct (ReferenceModel_load _ _ _) as [[|] [M0 R0]]; cbn [negb andb];
    [|exists O; eexists; reflexivity].
  destruct (sprintf_filename output ".initial-model");
    [|exists O; eexists; reflexivity].
  destruct (model_save M0 _); cbn [negb andb];
    [|exists O; eexists; reflexivity].
  destruct (sprintf_filename output ".test-initial-model");
    [|exists O; eexists; reflexivity].
  destruct (model_save R0 _); cbn [negb andb];
    [|exists O; eexists; reflexivity].
  intros H; destruct (H _ eq_refl) as (n & Hn).
  exists n; rewrite (invert_reaches _ n n Hn (le_n n)); cbn [negb].
  destruct (sprintf_filename output ".model"); [|eexists; reflexivity].
  destruct (model_save _ _); cbn [negb]; [|eexists; reflexivity].
  destruct (sprintf_filename output ".pred"); [|eexists; reflexivity].
  destruct (save_predictions _ _); cbn [negb]; eexists; reflexivity.
Qed.

(** X15: [main] ends.  With a positive [EPSILON_MIN], when the call of
    [invert] that [main] makes on the data and models it loaded (if it
    gets that far) has a finite [epsilon], [maxiterations] in the range of
    [int] and inner loops that come to a valid proposal, some number of
    transitions of [invert] is enough, and any larger number gives the
    same outcome. *)
Theorem main_ends pname l :
  dbl_lt 0 EPSILON_MIN = true ->
  (forall a, main_invert_call pname l = Some a ->
     dbl_lt (_epsilon a) infinity = true /\
     maxiterations a <= INT_MAX /\
     forall n, pc (run a n) = InnerLoop ->
       exists k, pc (run a (n + k)) <> InnerLoop) ->
  exists fuel o,
    forall fuel', (fuel <= fuel')%nat -> main fuel' pname l = Some o.
Proof.
  intros Hfloor Hcall; unfold main_invert_call in Hcall; unfold main.
  destruct (getopt_loop pname l defaults) as [e|v] eqn:G;
    [exists O; eexists; reflexivity|].
  pose proof (getopt_loop_ok pname l _ _ defaults_ok G)
    as (_ & _ & _ & E & _).
  destruct (input_file v) as [input|]; [|exists O; eexists; reflexivity].
  destruct (phase_file v) as [phase|]; [|exists O; eexists; reflexivity].
  destruct (reference_file v) as [reffile|];
    [|exists O; eexists; reflexivity].
  destruct (output_file v) as [output|]; [|exists O; eexists; reflexivity].
  destruct (main_run_ends v input phase reffile output) as (fuel & o & K).
  - intros a Ha; destruct (Hcall a Ha) as (Hfin & Hmax & Hretry).
    destruct (invert_call_args _ _ _ _ _ _ Ha) as (d & M & R & ->).
    destruct (halve_n_below_floor (opt_epsilon v) EPSILON_MIN
                (dbl_pos_of_not_le _ E Hfin) Hfin Hfloor) as (N & HN).
    exact (returns (invert_args v d M R) N HN Hretry Hmax).
  - exists fuel, o; intros f Hf; now apply (main_run_mono fuel).
Qed.

(** X16: the check [epsilon <= 0.0] lets a step size that is not a number
    through.  When [atof] gives NaN for the argument of [-e], the options
    are accepted with that epsilon, and in the run of [invert] that
    follows no pass can leave the loop on the floor: it returns only with
    the counter at [maxiterations]. *)
Theorem nan_epsilon_accepted pname l optarg v :
  getopt_loop pname l defaults = inr v ->
  opt_maxiterations v <= INT_MAX ->
  PrimFloat.is_nan (atof optarg) = true ->
  exists v',
    getopt_loop pname (l ++ [("e", optarg)]) defaults = inr v' /\
    opt_epsilon v' = atof optarg /\
    forall d M R n,
      let s := run (invert_args v' d M R) n in
      exit_count (out s) = 0 /\
      (pc s = Returned -> opt_maxiterations v' <= iterations s).
Proof.
  intros G Hmax Hnan.
  rewrite getopt_loop_app, G; cbn [getopt_loop].
  unfold handle_option; cbn [Ascii.eqb Bool.eqb].
  rewrite (dbl_le_nan _ _ (is_nan_spec _ Hnan)).
  eexists; split; [reflexivity|]; split; [reflexivity|].
  intros d M R n; cbn zeta.
  match goal with |- exit_count (out (run ?a n)) = 0 /\ _ =>
    assert (E : exit_count (out (run a n)) = 0)
      by (apply nan_never_exits; exact Hnan);
    destruct (counter_ok_run a n Hmax) as (_ & _ & _ & K)
  end.
  split; [exact E|]; intros P.
  destruct (K P) as [L | (i & L)]; [exact L|].
  destruct (out _) as [|e o]; [discriminate|].
  injection L as ->; cbn [exit_count] in E.
  pose proof (exit_count_nonneg o); lia.
Qed.

End MainRun.

(** ** The properties on runs of the integer line *)

Module ToyRuns.
Import Toy Line ToyMain.
Import Ascii.

Local Open Scope char_scope.

Lemma cmd_accepted pname :
  @getopt_loop _ files pname cmd defaults = inr cmd_options.
Proof. vm_compute; reflexivity. Qed.

(** X3, on the run from 9 with the counting solver: 23 calls for one
    accepted pass, ten backtracks and the exit on the floor. *)
Lemma likelihood_calls_witness :
  dkdp (ws (@run _ counting a9 25)) = 23 /\
  accepted_count (out (@run _ counting a9 25)) = 1 /\
  backtrack_count (out (@run _ counting a9 25)) = 10 /\
  exit_count (out (@run _ counting a9 25)) = 1.
Proof.
  assert (Tick : forall w M R D P t o h b sc f,
            dkdp (snd (@likelihood_love _ counting w M R D P t o h b sc f))
            = dkdp w + 1)
    by (intros; reflexivity).
  assert (A : accepted_count (out (@run _ counting a9 25)) = 1)
    by (vm_compute; reflexivity).
  assert (B : backtrack_count (out (@run _ counting a9 25)) = 10)
    by (vm_compute; reflexivity).
  assert (E : exit_count (out (@run _ counting a9 25)) = 1)
    by (vm_compute; reflexivity).
  split; [|auto].
  etransitivity;
    [exact (@likelihood_calls _ counting a9 dkdp 25%nat Tick)|].
  rewrite A, B, E; reflexivity.
Defined.

(** X4, on the run from 9: it ends on the floor. *)
Lemma exiting_is_last_witness :
  In (printf_Exiting 1) (out (@run _ line a9 25)) /\
  pc (@run _ line a9 25) = Returned /\
  hd_error (out (@run _ line a9 25)) = Some (printf_Exiting 1) /\
  exit_count (out (@run _ line a9 25)) = 1.
Proof.
  assert (H : In (printf_Exiting 1) (out (@run _ line a9 25)))
    by (vm_compute; tauto).
  split; [exact H|].
  exact (@exiting_is_last _ line a9 25%nat 1 H).
Defined.

(** X5, on three accepted passes uphill from 5: the line before the last
    one carries 1. *)
Lemma progress_lines_numbered_witness :
  maxiterations (toy_args 5 1 3 0) <= INT_MAX /\
  out (@run _ uphill (toy_args 5 1 3 0) 6) =
    [printf_progress 2 2 1;
     call_likelihood_love [] false 0 5 5 5 1 frequency_thin;
     call_ComputeStep 0 1]
    ++ printf_progress 1 3 1
       :: skipn 4 (out (@run _ uphill (toy_args 5 1 3 0) 6)) /\
  1 = accepted_count (skipn 4 (out (@run _ uphill (toy_args 5 1 3 0) 6))).
Proof.
  assert (H : maxiterations (toy_args 5 1 3 0) <= INT_MAX)
    by (vm_compute; discriminate).
  assert (E : out (@run _ uphill (toy_args 5 1 3 0) 6) =
              [printf_progress 2 2 1;
               call_likelihood_love [] false 0 5 5 5 1 frequency_thin;
               call_ComputeStep 0 1]
              ++ printf_progress 1 3 1
                 :: skipn 4 (out (@run _ uphill (toy_args 5 1 3 0) 6)))
    by (vm_compute; reflexivity).
  split; [exact H|]; split; [exact E|].
  exact (@progress_lines_numbered _ uphill (toy_args 5 1 3 0) 6%nat
           _ _ _ _ _ H E).
Defined.

(** X6, on the first pass of the run from 9. *)
Lemma proposal_validated_witness :
  pc (@run _ line a9 1) = AfterInner /\
  @validate _ line (model_v_proposed (@run _ line a9 1))
    (model_mask (@run _ line a9 1)) PRIOR_MIN PRIOR_MAX = true /\
  model_v_proposed (@run _ line a9 1) = 10.
Proof.
  assert (H : pc (@run _ line a9 1) = AfterInner) by (vm_compute; reflexivity).
  split; [exact H|].
  split; [exact (proj1 (@proposal_validated _ line a9 1%nat H))|].
  vm_compute; reflexivity.
Defined.

Lemma plateau_pure a : @pure_likelihood _ plateau a (fun _ M => step10 M).
Proof. split; intros; reflexivity. Qed.

Lemma plateau_restores : @copy_restores _ plateau.
Proof. intros M v mk p; reflexivity. Qed.

Lemma step10_number (d : unit) M : PrimFloat.is_nan (step10 M) = false.
Proof. unfold step10; destruct (M <? 10)%Z; reflexivity. Qed.

(** X7, on the plateau: from 9 with one iteration the run accepts 10 and
    ends at the bound. *)
Lemma returned_model_not_worse_witness :
  @invert _ plateau 10 (toy_args 9 1 1 0)
    = Some (true, @run _ plateau (toy_args 9 1 1 0) 2) /\
  exit_count (out (@run _ plateau (toy_args 9 1 1 0) 2)) = 0 /\
  model (@run _ plateau (toy_args 9 1 1 0) 2) = 10 /\
  like (@run _ plateau (toy_args 9 1 1 0) 2) = 0%float /\
  dbl_le (like (@run _ plateau (toy_args 9 1 1 0) 2)) (step10 9) = true.
Proof.
  assert (H : @invert _ plateau 10 (toy_args 9 1 1 0)
              = Some (true, @run _ plateau (toy_args 9 1 1 0) 2))
    by (vm_compute; reflexivity).
  assert (E : exit_count (out (@run _ plateau (toy_args 9 1 1 0) 2)) = 0)
    by (vm_compute; reflexivity).
  split; [exact H|]; split; [exact E|]; split; [vm_compute; reflexivity|].
  destruct (@returned_model_not_worse _ plateau (toy_args 9 1 1 0)
              (fun _ M => step10 M) 10%nat _
              (plateau_pure _) plateau_restores step10_number H E)
    as (L & D).
  split; [rewrite L; vm_compute; reflexivity | exact D].
Defined.

(** X8, on the command line of the example. *)
Lemma accepted_options_in_bounds_witness :
  @getopt_loop _ files "optimizelove" cmd defaults = inr cmd_options /\
  @options_ok cmd_options.
Proof.
  split; [apply cmd_accepted|].
  exact (@accepted_options_in_bounds _ files "optimizelove" cmd cmd_options
           (cmd_accepted _)).
Defined.

(** X9, with [-f 0.1] after the four files. *)
Lemma fmin_fmax_options_rejected_witness :
  @main _ line files 40 "optimizelove"
    (cmd ++ [("f", "0.1"%string); ("N", "7"%string)])
  = Some (Exit (-1) [call_usage "optimizelove"; stderr_unknown_option "f"]).
Proof.
  exact (proj2 (@fmin_fmax_options_rejected _ line files 40%nat "optimizelove"
                  cmd "f" "0.1"%string [("N", "7"%string)] cmd_options
                  (cmd_accepted _) (or_introl eq_refl))).
Defined.

(** X10, with two input files and nothing else. *)
Lemma files_from_last_occurrence_witness :
  @main _ line files 40 "optimizelove"
    [("i", "a"%string); ("i", "b"%string)]
  = Some (Exit (-1) [stderr_line "error: missing input phase parameter"]).
Proof.
  assert (H : @getopt_loop _ files "optimizelove"
                [("i", "a"%string); ("i", "b"%string)] defaults
              = inr {| input_file := Some "b"%string; phase_file := None;
                       reference_file := None; output_file := None;
                       fmin := fmin defaults; fmax := fmax defaults;
                       opt_threshold := 0; opt_order := 5;
                       opt_highorder := 5; opt_boundaryorder := 5;
                       opt_scale := opt_scale defaults;
                       opt_maxiterations := 5; opt_epsilon := 1;
                       opt_damping := [0; 0; 0; 0]%float; nodata := false;
                       opt_mode := 0 |})
    by (vm_compute; reflexivity).
  exact (@files_from_last_occurrence _ line files 40%nat "optimizelove" _ _ H).
Defined.

(** X11, on the transition of the example that rejects a proposal. *)
Lemma accepted_options_bound_inversion_witness :
  opt_maxiterations cmd_options <= INT_MAX /\
  dbl_gt (eps_get 1 (epsilon (@run _ line cmd_args 3)))
         (eps_get 1 (epsilon (@run _ line cmd_args 2))) = false /\
  0 <= accepted_count (out (@run _ line cmd_args 2)) <= 3.
Proof.
  assert (H : opt_maxiterations cmd_options <= INT_MAX)
    by (vm_compute; discriminate).
  split; [exact H|].
  exact (@accepted_options_bound_inversion _ line files "optimizelove" cmd
           cmd_options tt 9 9 2%nat 1 (cmd_accepted _) H).
Defined.

(** The example ends with status 0. *)
Lemma cmd_exit_zero :
  exists log, @main _ line files 40 "optimizelove" cmd = Some (Exit 0 log).
Proof. eexists; vm_compute; reflexivity. Qed.

(** X12, on the example. *)
Lemma failed_to_invert_never_reported_witness :
  exists o,
    @main _ line files 40 "optimizelove" cmd = Some o /\
    ~ In (stderr_line "error: failed to invert") (outcome_log o).
Proof.
  destruct cmd_exit_zero as (log & H).
  exists (Exit 0 log); split; [exact H|].
  exact (@failed_to_invert_never_reported _ line files 40%nat "optimizelove"
           cmd _ H).
Defined.

(** X13, on the example: the initial models saved are the loaded 9, and
    the saved model is the one of the returned state. *)
Lemma exit_zero_writes_the_results_witness :
  exists log s,
    @main _ line files 40 "optimizelove" cmd = Some (Exit 0 log) /\
    pc s = Returned /\
    In (model_saved "out.initial-model" 9 true) log /\
    In (model_saved "out.test-initial-model" 9 true) log /\
    In (model_saved "out.model" (model s) true) log /\
    In (predictions_saved "out.pred" (data (ws s)) true) log.
Proof.
  destruct cmd_exit_zero as (log & H).
  destruct (@exit_zero_writes_the_results _ line files 40%nat "optimizelove"
              cmd log H)
    as (v & input & phase & reffile & output & n & G & _ & _ & Hr & Ho & K).
  cbn zeta in K; destruct K as (_ & _ & _ & P & _ & L).
  assert (Hr' : last_arg "r" cmd = Some "9"%string)
    by (vm_compute; reflexivity).
  assert (Ho' : last_arg "o" cmd = Some "out"%string)
    by (vm_compute; reflexivity).
  rewrite Hr' in Hr; injection Hr as <-.
  rewrite Ho' in Ho; injection Ho as <-.
  eexists log, _; split; [exact H|]; split; [exact P|].
  rewrite L; cbn [In]; repeat split; auto 10.
Defined.

(** X14, with an output name of 1005 characters: the second [sprintf]
    needs 1025 bytes. *)
Lemma overflow_needs_long_output_name_witness :
  exists log output,
    @main _ line files 40 "optimizelove"
      (cmd ++ [("o", long_name 1005)]) = Some (Undefined log) /\
    last_arg "o" (cmd ++ [("o", long_name 1005)]) = Some output /\
    (1004 < String.length output)%nat.
Proof.
  assert (H : exists log,
            @main _ line files 40 "optimizelove"
              (cmd ++ [("o", long_name 1005)]) = Some (Undefined log))
    by (eexists; vm_compute; reflexivity).
  destruct H as (log & H).
  destruct (@overflow_needs_long_output_name _ line files 40%nat
              "optimizelove" _ log H) as (output & O & L).
  exists log, output; auto.
Defined.

(** X15, on the example: [main] calls [invert] from 9 on the bounded
    line, where other models would keep the inner loop turning. *)
Lemma main_ends_witness :
  @main_invert_call _ files "optimizelove" cmd = Some cmd_args /\
  exists fuel o,
    forall fuel', (fuel <= fuel')%nat ->
      @main _ line files fuel' "optimizelove" cmd = Some o.
Proof.
  assert (C : @main_invert_call _ files "optimizelove" cmd
              = Some cmd_args)
    by (vm_compute; reflexivity).
  assert (P : pc (@run _ line cmd_args 25) = Returned)
    by (vm_compute; reflexivity).
  split; [exact C|].
  apply (@main_ends _ line files "optimizelove" cmd).
  - vm_compute; reflexivity.
  - intros a Ha; rewrite C in Ha; injection Ha as <-.
    split; [vm_compute; reflexivity|]; split; [vm_compute; discriminate|].
    intros n _; exists 25%nat.
    rewrite Nat.add_comm, (run_returned _ 25 n P), P; discriminate.
Defined.

(** X16, with [-e nan] after the example. *)
Lemma nan_epsilon_accepted_witness :
  exists v',
    @getopt_loop _ files "optimizelove" (cmd ++ [("e", "nan"%string)])
      defaults = inr v' /\
    PrimFloat.is_nan (opt_epsilon v') = true /\
    exit_count (out (@run _ line (@invert_args _ files v' tt 9 9) 30)) = 0.
Proof.
  assert (Hmax : opt_maxiterations cmd_options <= INT_MAX)
    by (vm_compute; discriminate).
  assert (Hnan : PrimFloat.is_nan (@atof _ files "nan") = true)
    by (vm_compute; reflexivity).
  destruct (@nan_epsilon_accepted _ line files "optimizelove" cmd
              "nan"%string cmd_options (cmd_accepted _) Hmax Hnan)
    as (v' & G & E & R).
  exists v'; split; [exact G|]; split; [rewrite E; exact Hnan|].
  exact (proj1 (R tt 9 9 30%nat)).
Defined.

End ToyRuns.
